(** * foobar-api (whoami): the handlers of [app.go], embedded and verified

  The development follows [app.go] top to bottom: the unit constants, the
  router set up by [main], and the handlers [echoHandler], [dataHandler],
  [whoamiHandler], [healthHandler] together with the payload generator
  [fillContent].

  Conventions.
  - Go's [int] and [int64] are 64 bits wide (the platforms the Dockerfile
    builds for); a value is a [Z] and arithmetic that may leave the range
    is wrapped explicitly with [wrap64].
  - A Go [string] is a Rocq [string] (a sequence of 8-bit characters), a
    [[]byte] is a [list byte].
  - A run-time panic is a value: [Panic msg] of type [result].
  - Functions of Go's standard library are modelled from their documented
    behaviour; the two whose full behaviour depends on Unicode tables or
    on a complete JSON scanner ([strings.ToLower], [json.Decoder.Decode])
    are a type class [Library] that fixes what the program relies on, and
    which also holds what [req.Write] and the clock give.
  - [make] refuses a length that is negative or above the allocation
    limit of the runtime; within the limit the memory is taken to be
    there (the runtime ends the process when it is not).
  - A request carries no [Range] and no conditional header, the only
    header fields [http.ServeContent] reads: [Request] has no header. *)

From Stdlib Require Import ZArith Lia Strings.Ascii Strings.String Strings.Byte.
From Stdlib Require Import DecimalString DecimalZ.
From stdpp Require Import base tactics option list list_numbers strings gmap.

Open Scope Z_scope.

(** ** Run-time values *)

Module Go.

(** The outcome of a piece of Go code: it returns a value, it panics, or
    it waits for ever (on a lock, or on a connection). *)
Inductive result (A : Type) : Type :=
| Ok (a : A)
| Panic (msg : string)
| Blocked.
Global Arguments Ok {A} a.
Global Arguments Panic {A} msg.
Global Arguments Blocked {A}.

Global Instance result_ret : MRet result := fun A a => Ok a.
Global Instance result_bind : MBind result := fun A B k r =>
  match r with
  | Ok a => k a
  | Panic msg => Panic msg
  | Blocked => Blocked
  end.

Definition MinInt64 : Z := - 2 ^ 63.
Definition MaxInt64 : Z := 2 ^ 63 - 1.

Definition inInt64 (z : Z) : Prop := MinInt64 ≤ z ≤ MaxInt64.

(** Two's complement wrap-around of a 64-bit signed integer. *)
Definition wrap64 (z : Z) : Z := (z + 2 ^ 63) `mod` 2 ^ 64 - 2 ^ 63.

(** [a * b] on [int64]. *)
Definition mul64 (a b : Z) : Z := wrap64 (a * b).

(** [1 << k] on [int64]. *)
Definition shl64 (a k : Z) : Z := wrap64 (Z.shiftl a k).

(** [maxAlloc] of [runtime/malloc.go]: the largest size the allocator
    accepts, [1 << heapAddrBits] with 48 address bits on the 64-bit
    platforms. *)
Definition maxAlloc : Z := Z.shiftl 1 48.

(** [make([]byte, length)] for an [int64] length, that is
    [runtime.makeslice64]: a zeroed slice, or a panic when the length is
    negative or needs more than [maxAlloc] bytes. *)
Definition make_bytes (length : Z) : result (list byte) :=
  if (length <? 0) || (maxAlloc <? length)
  then Panic "runtime error: makeslice: len out of range"
  else Ok (replicate (Z.to_nat length) x00).

(** [b[i] = x] with its bounds check. *)
Definition slice_set (b : list byte) (i : Z) (x : byte) : result (list byte) :=
  if (0 <=? i) && (i <? Z.of_nat (length b))
  then Ok (<[Z.to_nat i := x]> b)
  else Panic "runtime error: index out of range".

(** [s[i]] on a string, with its bounds check. *)
Definition string_index (s : string) (i : Z) : result byte :=
  if 0 <=? i then
    match list_byte_of_string s !! Z.to_nat i with
    | Some c => Ok c
    | None => Panic "runtime error: index out of range"
    end
  else Panic "runtime error: index out of range".

(** [len(s)]. *)
Definition len (s : string) : Z := Z.of_nat (String.length s).

(** The line feed written by [Println] and by a trailing [\n]. *)
Definition LF : string := String "010"%char EmptyString.

End Go.

(** ** [strconv] *)

Module strconv.
Import Go.

Inductive NumError : Type := ErrSyntax | ErrRange.

(** The value of a decimal digit. In base 10 every other byte, the
    underscore included, is a syntax error. *)
Definition digit (c : ascii) : option Z :=
  let n := Z.of_N (N_of_ascii c) in
  if (48 <=? n) && (n <=? 57) then Some (n - 48) else None.

Fixpoint digits (s : string) (acc : Z) : option Z :=
  match s with
  | EmptyString => Some acc
  | String c rest =>
      match digit c with
      | Some d => digits rest (10 * acc + d)
      | None => None
      end
  end.

(** The magnitude read by [ParseUint(s, 10, 64)], before its range check. *)
Definition magnitude (s : string) : option Z :=
  match s with
  | EmptyString => None
  | _ => digits s 0
  end.

(** [strconv.ParseInt(s, 10, 64)]: the value and the error returned. *)
Definition ParseInt (s0 : string) : Z * option NumError :=
  match s0 with
  | EmptyString => (0, Some ErrSyntax)
  | String c rest =>
      let '(neg, s) :=
        if Ascii.eqb c "+" then (false, rest)
        else if Ascii.eqb c "-" then (true, rest)
        else (false, s0) in
      match magnitude s with
      | None => (0, Some ErrSyntax)
      | Some un =>
          let cutoff := 2 ^ 63 in
          if negb neg && (cutoff <=? un) then (cutoff - 1, Some ErrRange)
          else if neg && (cutoff <? un) then (- cutoff, Some ErrRange)
          else (if neg then - un else un, None)
      end
  end.

(** [strconv.ParseBool(str)]. *)
Definition ParseBool (str : string) : bool * option NumError :=
  if bool_decide (str ∈ ["1"; "t"; "T"; "true"; "TRUE"; "True"]%string)
  then (true, None)
  else if bool_decide (str ∈ ["0"; "f"; "F"; "false"; "FALSE"; "False"]%string)
  then (false, None)
  else (false, Some ErrSyntax).

(** [strconv.FormatInt(z, 10)], which is also what the verb [%d] prints
    and what [json.Marshal] writes for an integer. *)
Definition FormatInt (z : Z) : string := NilZero.string_of_int (Z.to_int z).

End strconv.

(** ** [strings] *)

Module strings.

Definition isASCII (c : ascii) : bool := (N_of_ascii c <? 128)%N.

(** An upper-case ASCII letter becomes the lower-case one. *)
Definition lowerByte (c : ascii) : ascii :=
  if ((65 <=? N_of_ascii c) && (N_of_ascii c <=? 90))%N
  then ascii_of_N (N_of_ascii c + 32) else c.

Definition lowerASCII (s : string) : string :=
  string_of_list_ascii (lowerByte <$> list_ascii_of_string s).

Definition allASCII (s : string) : bool :=
  forallb isASCII (list_ascii_of_string s).

Definition HasPrefix (s prefix : string) : bool := String.prefix prefix s.

(** [s[len(s)-1]], when [s] is not empty. *)
Fixpoint lastByte (s : string) : option ascii :=
  match s with
  | EmptyString => None
  | String c rest =>
      match lastByte rest with
      | Some d => Some d
      | None => Some c
      end
  end.

End strings.

(** ** [net/url] and [net/http] *)

Module http.
Import Go.

(** [url.Values] and [http.Header] are both [map[string][]string]. *)
Definition Get (v : gmap string (list string)) (key : string) : string :=
  match v !! key with
  | Some (x :: _) => x
  | _ => ""%string
  end.

(** [Header.Set]. The keys the program uses are in canonical form. *)
Definition Set_ (h : gmap string (list string)) (key value : string)
  : gmap string (list string) := <[key := [value]]> h.

Definition Del (h : gmap string (list string)) (key : string)
  : gmap string (list string) := delete key h.

(** The fields of [http.Request] that the handlers embedded here read.
    [r.Header] is not among them: [dataHandler] hands the request to
    [http.ServeContent], which looks for a [Range] and for conditions in
    it, and the requests of this development carry neither. *)
Record Request : Type := {
  Method : string;
  Path : string;                          (* r.URL.Path *)
  Query : gmap string (list string);      (* r.URL.Query() *)
  Body : string;
  RemoteAddr : string;
}.

Definition MethodPost : string := "POST".
Definition StatusOK : Z := 200.
Definition StatusSwitchingProtocols : Z := 101.
Definition StatusMovedPermanently : Z := 301.
Definition StatusBadRequest : Z := 400.
Definition StatusInternalServerError : Z := 500.

(** The server's [http.ResponseWriter]: what it has sent so far. Only
    the header fields set by the program and by [http.Error] are kept. *)
Record ResponseWriter : Type := {
  Header : gmap string (list string);
  wroteHeader : bool;
  status : Z;
  informational : list Z;                 (* 1xx responses already sent *)
  written : list byte;
}.

Definition newResponse : ResponseWriter :=
  {| Header := ∅; wroteHeader := false; status := 0;
     informational := []; written := [] |}.

Definition setHeader (w : ResponseWriter) (key value : string) : ResponseWriter :=
  {| Header := Set_ (Header w) key value; wroteHeader := wroteHeader w;
     status := status w; informational := informational w;
     written := written w |}.

Definition delHeader (w : ResponseWriter) (key : string) : ResponseWriter :=
  {| Header := Del (Header w) key; wroteHeader := wroteHeader w;
     status := status w; informational := informational w;
     written := written w |}.

(** [w.WriteHeader(code)]. A code that is not three digits long panics
    ([checkWriteHeaderCode]); a call after the header has been sent is
    ignored; a 1xx code other than 101 is sent at once as an informational
    response and leaves the final status open (Go 1.19 and later, which
    the image [golang:1-alpine] of the Dockerfile provides). *)
Definition WriteHeader (code : Z) (w : ResponseWriter) : result ResponseWriter :=
  if wroteHeader w then Ok w
  else if (code <? 100) || (999 <? code)
  then Panic ("invalid WriteHeader code " +:+ strconv.FormatInt code)
  else if (100 <=? code) && (code <=? 199)
          && negb (code =? StatusSwitchingProtocols)
  then Ok {| Header := Header w; wroteHeader := false; status := status w;
             informational := informational w ++ [code];
             written := written w |}
  else Ok {| Header := Header w; wroteHeader := true; status := code;
             informational := informational w; written := written w |}.

(** The status codes that [WriteHeader] sends as the final status, over
    HTTP/1 and over HTTP/2 alike. *)
Definition finalStatus (code : Z) : Prop := 200 ≤ code ≤ 999.

(** Responses with these codes carry no body. *)
Definition bodyAllowedForStatus (code : Z) : bool :=
  negb (((100 <=? code) && (code <=? 199)) || (code =? 204) || (code =? 304)).

(** [w.Write(p)]: sends the header with status 200 if none was sent, then
    the bytes. Writes to the client succeed; that the server leaves out
    the body when it answers a [HEAD] request is not modelled, and the
    statements about bodies are about [GET] requests. *)
Definition Write (p : list byte) (w : ResponseWriter) : result ResponseWriter :=
  w ← (if wroteHeader w then Ok w else WriteHeader StatusOK w);
  if bodyAllowedForStatus (status w)
  then Ok {| Header := Header w; wroteHeader := wroteHeader w;
             status := status w; informational := informational w;
             written := written w ++ p |}
  else Ok w.

(** [fmt.Fprintln(w, s)] and [fmt.Fprint(w, s)]. *)
Definition Fprint (s : string) (w : ResponseWriter) : result ResponseWriter :=
  Write (list_byte_of_string s) w.
Definition Fprintln (s : string) (w : ResponseWriter) : result ResponseWriter :=
  Write (list_byte_of_string (s +:+ LF)) w.

(** [http.Error(w, error, code)]. *)
Definition Error (w : ResponseWriter) (error : string) (code : Z)
  : result ResponseWriter :=
  let w := delHeader w "Content-Length" in
  let w := setHeader w "Content-Type" "text/plain; charset=utf-8" in
  let w := setHeader w "X-Content-Type-Options" "nosniff" in
  w ← WriteHeader code w;
  Fprintln error w.

(** A writer that has sent nothing, or has sent the header of a 200
    response. *)
Definition open (w : ResponseWriter) : Prop :=
  wroteHeader w = true → status w = StatusOK.

(** What the server does when the handler returns: a response whose
    header was never written goes out with status 200. *)
Definition finish (w : ResponseWriter) : result ResponseWriter :=
  if wroteHeader w then Ok w else WriteHeader StatusOK w.

(** *** [http.ServeMux] *)

(** [strings.Split(p, "/")]. *)
Fixpoint segments (p : string) : list string :=
  match p with
  | EmptyString => [EmptyString]
  | String c rest =>
      if Ascii.eqb c "/" then EmptyString :: segments rest
      else match segments rest with
           | seg :: more => String c seg :: more
           | [] => [String c EmptyString]
           end
  end.

(** One element of a rooted path seen by [path.Clean]: empty and [.]
    elements vanish, [..] removes the element before it (none at the
    root), any other element is kept. *)
Definition cleanStep (kept : list string) (seg : string) : list string :=
  if bool_decide (seg = ""%string) || bool_decide (seg = "."%string) then kept
  else if bool_decide (seg = ".."%string) then removelast kept
  else kept ++ [seg].

Fixpoint join (segs : list string) : string :=
  match segs with
  | [] => ""%string
  | [seg] => seg
  | seg :: more => seg +:+ "/" +:+ join more
  end.

(** [path.Clean(p)] for a path [p] that starts with a slash. *)
Definition Clean (p : string) : string :=
  "/" +:+ join (foldl cleanStep [] (segments p)).

(** [cleanPath(p)] of [net/http]: the canonical form of a request path. *)
Definition cleanPath (p : string) : string :=
  if bool_decide (p = ""%string) then "/"%string
  else
    let p := if strings.HasPrefix p "/" then p else ("/" +:+ p)%string in
    let np := Clean p in
    if bool_decide (strings.lastByte p = Some "/"%char)
       && negb (bool_decide (np = "/"%string))
    then (np +:+ "/")%string
    else np.

Section ServeMux.
(** The handlers that can be registered. *)
Context {H : Type}.

(** What the multiplexer answers with. *)
Inductive Handler : Type :=
| Registered (h : H)
| RedirectHandler (url : string) (code : Z)
| NotFoundHandler
| BadRequestHandler.

Record ServeMux : Type := {
  m : gmap string H;                    (* every pattern *)
  es : list (string * H);               (* patterns ending in a slash,
                                           longest first *)
}.

Definition NewServeMux : ServeMux := {| m := ∅; es := [] |}.

Fixpoint appendSorted (es : list (string * H)) (e : string * H)
  : list (string * H) :=
  match es with
  | [] => [e]
  | e' :: rest =>
      if (String.length e'.1 <? String.length e.1)%nat then e :: es
      else e' :: appendSorted rest e
  end.

(** [http.HandleFunc(pattern, handler)]. *)
Definition HandleFunc (pattern : string) (h : H) (mux : ServeMux) : ServeMux :=
  {| m := <[pattern := h]> (m mux);
     es := if bool_decide (strings.lastByte pattern = Some "/"%char)
           then appendSorted (es mux) (pattern, h)
           else es mux |}.

(** [mux.match]: an exact pattern first, then the longest registered
    subtree that contains the path. *)
Definition match_ (mux : ServeMux) (path : string) : option H :=
  match m mux !! path with
  | Some h => Some h
  | None => snd <$> List.find (fun e => strings.HasPrefix path e.1) (es mux)
  end.

(** [mux.handler]. *)
Definition handler (mux : ServeMux) (path : string) : Handler :=
  match match_ mux path with
  | Some h => Registered h
  | None => NotFoundHandler
  end.

(** [mux.shouldRedirectRLocked]: the path [/tree] is unregistered
    although the subtree [/tree/] is registered. *)
Definition shouldRedirect (mux : ServeMux) (path : string) : bool :=
  match m mux !! path with
  | Some _ => false
  | None =>
      if bool_decide (path = ""%string) then false
      else bool_decide (is_Some (m mux !! (path +:+ "/")%string))
  end.

(** [mux.ServeHTTP] down to the choice of the handler ([mux.Handler]).
    The request target [*] is refused; a [CONNECT] request is matched
    as it is; any other request is matched only when its path is in
    canonical form and is sent to the canonical path otherwise (the
    query string, which the redirect keeps, is left out). *)
Definition dispatch (mux : ServeMux) (r : Request) : Handler :=
  if bool_decide (Path r = "*"%string) then BadRequestHandler
  else if bool_decide (Method r = "CONNECT"%string) then
    if shouldRedirect mux (Path r)
    then RedirectHandler (Path r +:+ "/") StatusMovedPermanently
    else handler mux (Path r)
  else
    let path := cleanPath (Path r) in
    if shouldRedirect mux path
    then RedirectHandler (path +:+ "/") StatusMovedPermanently
    else if negb (bool_decide (path = Path r))
    then RedirectHandler path StatusMovedPermanently
    else handler mux (Path r).
End ServeMux.
Global Arguments Handler : clear implicits.
Global Arguments ServeMux : clear implicits.

End http.

(** ** [sync.RWMutex], seen by one goroutine at a time *)

Module sync.
Import Go.

Record RWMutex : Type := { writer : bool; readers : nat }.

Definition unlocked : RWMutex := {| writer := false; readers := 0 |}.

(** [Lock] and [RLock] return the mutex once acquired, or [Blocked]. *)
Definition Lock (mu : RWMutex) : result RWMutex :=
  if writer mu || negb (readers mu =? 0)%nat then Blocked
  else Ok {| writer := true; readers := readers mu |}.

Definition Unlock (mu : RWMutex) : result RWMutex :=
  if writer mu then Ok {| writer := false; readers := readers mu |}
  else Panic "fatal error: sync: Unlock of unlocked RWMutex".

Definition RLock (mu : RWMutex) : result RWMutex :=
  if writer mu then Blocked
  else Ok {| writer := false; readers := S (readers mu) |}.

Definition RUnlock (mu : RWMutex) : result RWMutex :=
  match readers mu with
  | O => Panic "fatal error: sync: RUnlock of unlocked RWMutex"
  | S n => Ok {| writer := writer mu; readers := n |}
  end.

End sync.

(** ** What the program takes from the standard library as given *)

(** [ToLower]: [strings.ToLower]. On a string of ASCII bytes it replaces
  the letters A to Z by a to z; on other strings it follows the Unicode
  tables.

  [Decode]: [json.NewDecoder(body).Decode(&v)] for [v] of type [int]
  holding [v0]: the error text, or the value [v] holds afterwards. The
  decimal literal of a number in the range of [int] decodes to that
  number.

  [RequestWrite]: [req.Write(w)], the request in wire format: the bytes
  it writes and the text of the error that stopped it, if any.

  [Now]: [time.Now()] when the request is served, as [http.ServeContent]
  prints it: [modtime.UTC().Format(http.TimeFormat)]. *)
Class Library : Type := {
  ToLower : string → string;
  ToLower_ascii (s : string) :
    strings.allASCII s = true → ToLower s = strings.lowerASCII s;
  Decode : string → Z → string + Z;
  Decode_literal (c v0 : Z) :
    Go.inInt64 c → Decode (strconv.FormatInt c) v0 = inr c;
  RequestWrite : http.Request → list byte * option string;
  Now : string;
}.

(** ** The program *)

Module App.
Import Go strconv http sync.

(** Units: [const ( _ = iota; KB int64 = 1 << (10 * iota); MB; GB; TB )]. *)
Definition KB : Z := shl64 1 (10 * 1).
Definition MB : Z := shl64 1 (10 * 2).
Definition GB : Z := shl64 1 (10 * 3).
Definition TB : Z := shl64 1 (10 * 4).

(** The process and its surroundings: the [name] flag, [os.Hostname()]
    and, for each interface of [net.Interfaces()], its addresses. *)
Inductive Addr : Type :=
| IPNet (ip : string)
| IPAddr (ip : string)
| OtherAddr.

Record Env : Type := {
  name : string;
  hostname : string;
  ifaces : list (list Addr);
}.

Record healthState : Type := { StatusCode : Z }.

(** The package variables and the process output. *)
Record World : Type := {
  currentHealthState : healthState;
  mutexHealthState : RWMutex;
  stdout : list string;
  logged : list string;
}.

(** [var currentHealthState = healthState{http.StatusOK}] and
    [mutexHealthState = &sync.RWMutex{}]. *)
Definition initial : World :=
  {| currentHealthState := {| StatusCode := StatusOK |};
     mutexHealthState := unlocked; stdout := []; logged := [] |}.

Definition Printf (s : string) (σ : World) : World :=
  {| currentHealthState := currentHealthState σ;
     mutexHealthState := mutexHealthState σ;
     stdout := stdout σ ++ [s]; logged := logged σ |}.

(** [log.Println(s)], without the time stamp that precedes the line. *)
Definition logPrintln (s : string) (σ : World) : World :=
  {| currentHealthState := currentHealthState σ;
     mutexHealthState := mutexHealthState σ;
     stdout := stdout σ; logged := logged σ ++ [s +:+ LF] |}.

Definition setMutex (mu : RWMutex) (σ : World) : World :=
  {| currentHealthState := currentHealthState σ;
     mutexHealthState := mu; stdout := stdout σ; logged := logged σ |}.

Definition setStatusCode (code : Z) (σ : World) : World :=
  {| currentHealthState := {| StatusCode := code |};
     mutexHealthState := mutexHealthState σ;
     stdout := stdout σ; logged := logged σ |}.

(** *** [main]: the routes *)

(** The six handlers. [apiHandler] appears below as a route only. *)

Inductive handlerFunc : Type :=
| dataHandler_ | echoHandler_ | benchHandler_
| whoamiHandler_ | apiHandler_ | healthHandler_.

Definition DefaultServeMux : ServeMux handlerFunc :=
  HandleFunc "/health" healthHandler_
    (HandleFunc "/api" apiHandler_
      (HandleFunc "/" whoamiHandler_
        (HandleFunc "/bench" benchHandler_
          (HandleFunc "/echo" echoHandler_
            (HandleFunc "/data" dataHandler_ NewServeMux))))).

(** The handler the server runs for a request. *)
Definition route (r : Request) : Handler handlerFunc :=
  dispatch DefaultServeMux r.

(** *** [benchHandler] *)

Definition benchHandler (w : ResponseWriter) (r : Request)
  : result ResponseWriter :=
  let w := setHeader w "Connection" "keep-alive" in
  let w := setHeader w "Content-Type" "text/plain" in
  Fprint "1" w.

(** *** [fillContent] *)

Definition charset : string := "-ABCDEFGHIJKLMNOPQRSTUVWXYZ".

(** The body of [for i := range b { b[i] = charset[i%len(charset)] }],
    run over the indices [idx]. *)
Fixpoint fillLoop (idx : list Z) (b : list byte) : result (list byte) :=
  match idx with
  | [] => Ok b
  | i :: rest =>
      c ← string_index charset (Z.rem i (len charset));
      b' ← slice_set b i c;
      fillLoop rest b'
  end.

(** [fillContent(length)]: the bytes held by the returned reader. *)
Definition fillContent (length : Z) : result (list byte) :=
  b ← make_bytes length;
  b ← fillLoop (seqZ 0 (Z.of_nat (List.length b))) b;
  if 0 <? length then
    b ← slice_set b 0 "|"%byte;
    slice_set b (length - 1) "|"%byte
  else Ok b.

(** *** [echoHandler] and [printBinary] *)

(** A websocket message: [TextMessage] is 1, [BinaryMessage] is 2. *)
Record Message : Type := { messageType : Z; payload : list byte }.

(** What the successive calls of [conn.ReadMessage()] return. When the
    list is used up the next call waits for the peer. *)
Inductive Incoming : Type :=
| Frame (msg : Message)
| ReadError (err : string).

(** A connection: what the peer will send, whether the write number [k]
    will succeed, and the messages written so far. *)
Record Conn : Type := {
  incoming : list Incoming;
  writable : nat → bool;
  sent : list Message;
}.

Definition printBinary (s : list byte) (σ : World) : World :=
  let σ := Printf "Received b:" σ in
  let σ := foldl (fun σ c => Printf (FormatInt (Z.of_N (Byte.to_N c)) +:+ ",") σ)
                 σ s in
  Printf LF σ.

(** The [for] loop of [echoHandler], by recursion on what is still to be
    read. It returns the messages written and how the loop ended: [Ok]
    when it returned, [Blocked] while it waits in [ReadMessage]. *)
Fixpoint echoLoop (incoming : list Incoming) (writable : nat → bool)
    (sent : list Message) (σ : World) : World * list Message * result unit :=
  match incoming with
  | [] => (σ, sent, Blocked)
  | ReadError _ :: _ => (σ, sent, Ok ())
  | Frame msg :: rest =>
      let σ := printBinary (payload msg) σ in
      if writable (List.length sent)
      then echoLoop rest writable (sent ++ [msg]) σ
      else (σ, sent, Ok ())
  end.

(** [echoHandler], given the outcome of [upgrader.Upgrade]: an error,
    which is logged, or the connection. *)
Definition echoHandler (upgrade : string + Conn) (σ : World)
  : World * list Message * result unit :=
  match upgrade with
  | inl err => (logPrintln err σ, [], Ok ())
  | inr conn => echoLoop (incoming conn) (writable conn) (sent conn) σ
  end.

(** *** [dataHandler] *)

(** The length [dataHandler] passes to [fillContent]. *)
Definition dataSize `{Library} (r : Request) : Z :=
  let queryParams := Query r in
  let '(size, err) := ParseInt (Get queryParams "size") in
  let size := if err is Some _ then 1 else size in
  let size := if size <? 0 then 0 else size in
  let unit := Get queryParams "unit" in
  let lower := ToLower unit in
  if bool_decide (lower = "kb"%string) then mul64 size KB
  else if bool_decide (lower = "mb"%string) then mul64 size MB
  else if bool_decide (lower = "gb"%string) then mul64 size GB
  else if bool_decide (lower = "tb"%string) then mul64 size TB
  else size.

Definition dataAttachment (r : Request) : bool :=
  let '(attachment, err) := ParseBool (Get (Query r) "attachment") in
  if err is Some _ then false else attachment.

(** [io.Copy(w, content)]: the reader hands its bytes to [w.Write] in one
    call, and makes no call when it is empty. *)
Definition ioCopy (w : ResponseWriter) (content : list byte)
  : result ResponseWriter :=
  match content with
  | [] => Ok w
  | _ => Write content w
  end.

(** The [Content-Type] that [http.ServeContent] finds for [data.txt]. The
    table of [mime.TypeByExtension] has no entry for [.txt] of its own,
    and none from the system in the image, which is built from scratch;
    the type is then that of [http.DetectContentType] on the first 512
    bytes, and a payload of [fillContent], empty or made of the sentinel,
    the dash and capital letters, matches no signature but that of text.
    (A system table that knows [.txt] gives the same type.) *)
Definition textPlain : string := "text/plain; charset=utf-8".

(** [http.ServeContent(w, r, name, modtime, content)] for a request that
    carries no [Range] and no conditional header ([If-Match],
    [If-Unmodified-Since], [If-None-Match], [If-Modified-Since]) and a
    file of type [textPlain]: [setLastModified], the [Content-Type] unless
    the handler has set one, [Accept-Ranges], the [Content-Length] unless
    there is a [Content-Encoding], the status 200 and, except to a [HEAD]
    request, the content ([io.CopyN]). [modtime] is the time as
    [http.TimeFormat] prints it, and not the zero time. *)
Definition ServeContent (w : ResponseWriter) (r : Request) (modtime : string)
    (content : list byte) : result ResponseWriter :=
  let w := setHeader w "Last-Modified" modtime in
  let w := match Header w !! "Content-Type"%string with
           | Some _ => w
           | None => setHeader w "Content-Type" textPlain
           end in
  let w := setHeader w "Accept-Ranges" "bytes" in
  let w := if bool_decide (Get (Header w) "Content-Encoding" = ""%string)
           then setHeader w "Content-Length"
                          (FormatInt (Z.of_nat (List.length content)))
           else w in
  w ← WriteHeader StatusOK w;
  if bool_decide (Method r = "HEAD"%string) then Ok w else Write content w.

(** Writes to [w] succeed here, so the branch of the source that answers a
    failed copy with status 500 is not taken. *)
Definition dataHandler `{Library} (w : ResponseWriter) (r : Request)
  : result ResponseWriter :=
  let size := dataSize r in
  let attachment := dataAttachment r in
  content ← fillContent size;
  if attachment then
    let w := setHeader w "Content-Disposition" "Attachment" in
    ServeContent w r Now content
  else ioCopy w content.

(** *** [whoamiHandler] *)

(** [fmt.Fprintln(w, "IP:", ip)] for the [ip] of an address; an address
    of another kind leaves [ip] nil. *)
Definition ipLine (a : Addr) : string :=
  match a with
  | IPNet ip | IPAddr ip => "IP: " +:+ ip
  | OtherAddr => "IP: <nil>"
  end.

Fixpoint printAddrs (addrs : list Addr) (w : ResponseWriter)
  : result ResponseWriter :=
  match addrs with
  | [] => Ok w
  | a :: rest => w ← Fprintln (ipLine a) w; printAddrs rest w
  end.

Fixpoint printIfaces (ifs : list (list Addr)) (w : ResponseWriter)
  : result ResponseWriter :=
  match ifs with
  | [] => Ok w
  | addrs :: rest => w ← printAddrs addrs w; printIfaces rest w
  end.

(** The optional [wait] parameter only delays the answer ([time.Sleep]),
    which leaves no trace here. *)
Definition whoamiHandler `{Library} (env : Env) (w : ResponseWriter)
    (req : Request) : result ResponseWriter :=
  w ← (if bool_decide (name env = ""%string) then Ok w
       else Fprintln ("Name: " +:+ name env) w);
  w ← Fprintln ("Hostname: " +:+ hostname env) w;
  w ← printIfaces (ifaces env) w;
  w ← Fprintln ("RemoteAddr: " +:+ RemoteAddr req) w;
  let '(wire, err) := RequestWrite req in
  w ← ioCopy w wire;
  match err with
  | Some e => http.Error w e StatusInternalServerError
  | None => Ok w
  end.

(** *** [healthHandler] *)

(** A deferred unlock runs when the handler leaves, also by a panic. *)
Definition deferred (unlock : RWMutex → result RWMutex) (σ : World)
    (r : result ResponseWriter) : World * result ResponseWriter :=
  match unlock (mutexHealthState σ) with
  | Ok mu => (setMutex mu σ, r)
  | Panic msg => (σ, Panic msg)
  | Blocked => (σ, Blocked)
  end.

Definition healthHandler `{Library} (w : ResponseWriter) (req : Request)
    (σ : World) : World * result ResponseWriter :=
  if bool_decide (Method req = MethodPost) then
    match Decode (Body req) 0 with
    | inl err => (σ, http.Error w err StatusBadRequest)
    | inr statusCode =>
        let σ := Printf ("Update health check status code ["
                         +:+ FormatInt statusCode +:+ "]" +:+ LF) σ in
        match Lock (mutexHealthState σ) with
        | Ok mu =>
            let σ := setMutex mu σ in
            let σ := setStatusCode statusCode σ in
            deferred Unlock σ (Ok w)
        | Panic msg => (σ, Panic msg)
        | Blocked => (σ, Blocked)
        end
    end
  else
    match RLock (mutexHealthState σ) with
    | Ok mu =>
        let σ := setMutex mu σ in
        deferred RUnlock σ (WriteHeader (StatusCode (currentHealthState σ)) w)
    | Panic msg => (σ, Panic msg)
    | Blocked => (σ, Blocked)
    end.

(** *** Serving a request *)

(** The response the client receives from a handler started on a fresh
    [ResponseWriter]; a panic in the handler aborts the connection and no
    response is sent. *)
Definition respond (handled : result ResponseWriter) : result ResponseWriter :=
  w ← handled; finish w.

Definition serveData `{Library} (r : Request) : result ResponseWriter :=
  respond (dataHandler newResponse r).

Definition serveWhoami `{Library} (env : Env) (r : Request)
  : result ResponseWriter :=
  respond (whoamiHandler env newResponse r).

Definition serveHealth `{Library} (r : Request) (σ : World)
  : World * result ResponseWriter :=
  let '(σ, handled) := healthHandler newResponse r σ in
  (σ, respond handled).

End App.

(** ** [healthHandler] run by many goroutines *)

(** The server runs every request in a goroutine of its own. Here the
  goroutines that reach the shared [currentHealthState] take their steps
  one at a time, in any order. The assignment to [StatusCode] is not taken
  to be atomic: it begins, and later ends, and a read that falls in
  between sees no whole value. [Lock] and [RLock] are those of [sync];
  a goroutine that would block simply cannot take its step. (The real
  [RWMutex] also holds back new readers while a writer waits, which only
  removes interleavings.) *)
Module Concurrent.
Import Go sync.

Inductive cell : Type :=
| Whole (v : Z)
| Partial (old new : Z).

(** What a read of the cell sees: a value, or a torn word. *)
Definition load (c : cell) : option Z :=
  match c with
  | Whole v => Some v
  | Partial _ _ => None
  end.

(** A goroutine in [healthHandler], by the point it has reached. A
    [POST] whose body fails to decode returns before it touches the shared
    state and is left out. *)
Inductive goroutine : Type :=
| PostDecoded (statusCode : Z)            (* before [Lock] *)
| PostLocked (statusCode : Z)             (* [Lock] returned *)
| PostStoring (statusCode : Z)            (* the assignment has begun *)
| PostStored (statusCode : Z)             (* the assignment has ended *)
| PostReturned (statusCode : Z)           (* [Unlock] ran *)
| GetStarted                              (* before [RLock] *)
| GetLocked                               (* [RLock] returned *)
| GetRead (seen : option Z)               (* [StatusCode] was read *)
| GetReturned (seen : option Z).          (* [RUnlock] ran *)

Record state : Type := {
  mutexHealthState : RWMutex;
  StatusCode : cell;
  goroutines : list goroutine;
}.

Definition initial : state :=
  {| mutexHealthState := unlocked; StatusCode := Whole http.StatusOK;
     goroutines := [] |}.

(** The next step of a goroutine, if it can take one. *)
Definition advance (g : goroutine) (mu : RWMutex) (c : cell)
  : option (goroutine * RWMutex * cell) :=
  match g with
  | PostDecoded code =>
      match Lock mu with
      | Ok mu' => Some (PostLocked code, mu', c)
      | _ => None
      end
  | PostLocked code =>
      match c with
      | Whole old | Partial old _ => Some (PostStoring code, mu, Partial old code)
      end
  | PostStoring code => Some (PostStored code, mu, Whole code)
  | PostStored code =>
      match Unlock mu with
      | Ok mu' => Some (PostReturned code, mu', c)
      | _ => None
      end
  | PostReturned _ => None
  | GetStarted =>
      match RLock mu with
      | Ok mu' => Some (GetLocked, mu', c)
      | _ => None
      end
  | GetLocked => Some (GetRead (load c), mu, c)
  | GetRead seen =>
      match RUnlock mu with
      | Ok mu' => Some (GetReturned seen, mu', c)
      | _ => None
      end
  | GetReturned _ => None
  end.

(** What happens next: a request arrives, or goroutine [i] is scheduled. *)
Inductive event : Type :=
| Post (statusCode : Z)
| Get
| Run (i : nat).

Definition arrive (g : goroutine) (s : state) : state :=
  {| mutexHealthState := mutexHealthState s; StatusCode := StatusCode s;
     goroutines := goroutines s ++ [g] |}.

Definition exec (e : event) (s : state) : state :=
  match e with
  | Post code => arrive (PostDecoded code) s
  | Get => arrive GetStarted s
  | Run i =>
      match goroutines s !! i with
      | Some g =>
          match advance g (mutexHealthState s) (StatusCode s) with
          | Some (g', mu, c) =>
              {| mutexHealthState := mu; StatusCode := c;
                 goroutines := <[i := g']> (goroutines s) |}
          | None => s
          end
      | None => s
      end
  end.

Definition run (events : list event) (s : state) : state :=
  foldl (fun s e => exec e s) s events.

(** The goroutines between [Lock] and [Unlock], between [RLock] and
    [RUnlock], and in the middle of the assignment. *)
Definition writing (g : goroutine) : nat :=
  match g with
  | PostLocked _ | PostStoring _ | PostStored _ => 1
  | _ => 0
  end.

Definition reading (g : goroutine) : nat :=
  match g with
  | GetLocked | GetRead _ => 1
  | _ => 0
  end.

Definition storing (g : goroutine) : nat :=
  match g with
  | PostStoring _ => 1
  | _ => 0
  end.

(** The value of a [POST] whose assignment has ended. *)
Definition completed (g : goroutine) : option Z :=
  match g with
  | PostStored code | PostReturned code => Some code
  | _ => None
  end.

(** What a [GET] has read. *)
Definition observed (g : goroutine) : option (option Z) :=
  match g with
  | GetRead seen | GetReturned seen => Some seen
  | _ => None
  end.

Definition total (f : goroutine → nat) (gs : list goroutine) : nat :=
  sum_list_with f gs.

(** Some [POST] with this value has finished its assignment. *)
Definition written (gs : list goroutine) (v : Z) : Prop :=
  ∃ j g, gs !! j = Some g ∧ completed g = Some v.

Definition legitimate (gs : list goroutine) (seen : option Z) : Prop :=
  ∃ v, seen = Some v ∧ (v = http.StatusOK ∨ written gs v).

(** What holds in every state that can be reached. *)
Record invariant (s : state) : Prop := {
  inv_exclusive :
    writer (mutexHealthState s) = true → readers (mutexHealthState s) = 0%nat;
  inv_readers :
    readers (mutexHealthState s) = total reading (goroutines s);
  inv_writers :
    total writing (goroutines s)
    = if writer (mutexHealthState s) then 1%nat else 0%nat;
  inv_storing :
    total storing (goroutines s)
    = match StatusCode s with Partial _ _ => 1%nat | Whole _ => 0%nat end;
  inv_cell : ∀ v,
    StatusCode s = Whole v → v = http.StatusOK ∨ written (goroutines s) v;
  inv_seen : ∀ i g seen,
    goroutines s !! i = Some g → observed g = Some seen →
    legitimate (goroutines s) seen;
}.

End Concurrent.

(** ** A reference library *)

(** An instance of [Library] to run the program on concrete requests. Its
  decoder follows the scanner of [encoding/json] through white space,
  the literals [null], [true] and [false], and numbers, up to the byte
  that ends the value: what comes after a complete value is not looked
  at. A body that begins a string, an array or an object cannot be stored
  in an [int] either way; for those the reference answers with the error
  of a well-formed value and does not scan them. Its [ToLower] is
  [lowerASCII]; its [RequestWrite] writes the request line. *)
Module Reference.
Import Go strconv.

Definition isSpace (c : ascii) : bool :=
  bool_decide (c ∈ [" "; "009"; "010"; "013"]%char).

Fixpoint skipSpace (s : string) : string :=
  match s with
  | String c rest => if isSpace c then skipSpace rest else s
  | EmptyString => s
  end.

(** What the scanner finds from some byte on: the rest of the value, a
    byte it refuses, or the end of the input inside the value. *)
Inductive scanned : Type :=
| Value (item : string)
| Invalid (c : ascii) (context : string)
| UnexpectedEOF.

Definition more (c : ascii) (sc : scanned) : scanned :=
  match sc with
  | Value item => Value (String c item)
  | _ => sc
  end.

(** The states of the scanner inside a number, named as in [scanner.go]. *)
Inductive numeric : Type :=
| stateNeg | state0 | state1 | stateDot | stateDot0
| stateE | stateESign | stateE0.

Inductive step : Type :=
| Goto (st : numeric)
| EndValue
| Refuse (context : string).

Definition isDigit (c : ascii) : bool := bool_decide (is_Some (digit c)).

Definition stepNumber (st : numeric) (c : ascii) : step :=
  let exponent := Ascii.eqb c "e" || Ascii.eqb c "E" in
  let after0 := if Ascii.eqb c "." then Goto stateDot
                else if exponent then Goto stateE
                else EndValue in
  let afterSign := if isDigit c then Goto stateE0
                   else Refuse "in exponent of numeric literal" in
  match st with
  | stateNeg => if Ascii.eqb c "0" then Goto state0
                else if isDigit c then Goto state1
                else Refuse "in numeric literal"
  | state1 => if isDigit c then Goto state1 else after0
  | state0 => after0
  | stateDot => if isDigit c then Goto stateDot0
                else Refuse "after decimal point in numeric literal"
  | stateDot0 => if isDigit c then Goto stateDot0
                 else if exponent then Goto stateE
                 else EndValue
  | stateE => if Ascii.eqb c "+" || Ascii.eqb c "-" then Goto stateESign
              else afterSign
  | stateESign => afterSign
  | stateE0 => if isDigit c then Goto stateE0 else EndValue
  end.

(** A number can end where the input ends only after a digit of its
    integer part, of its fraction or of its exponent. *)
Definition complete (st : numeric) : bool :=
  match st with
  | state0 | state1 | stateDot0 | stateE0 => true
  | _ => false
  end.

Fixpoint number (st : numeric) (s : string) : scanned :=
  match s with
  | EmptyString => if complete st then Value "" else UnexpectedEOF
  | String c rest =>
      match stepNumber st c with
      | Goto st' => more c (number st' rest)
      | EndValue => Value ""
      | Refuse context => Invalid c context
      end
  end.

(** The bytes [expected] of the literal [name], one by one. *)
Fixpoint literal (name expected : string) (s : string) : scanned :=
  match expected with
  | EmptyString => Value ""
  | String e expected' =>
      match s with
      | EmptyString => UnexpectedEOF
      | String c rest =>
          if Ascii.eqb c e then more c (literal name expected' rest)
          else Invalid c ("in literal " +:+ name +:+ " (expecting '"
                          +:+ String e "')")
      end
  end.

Definition hexDigit (n : N) : ascii :=
  nth (N.to_nat n) (list_ascii_of_string "0123456789abcdef") "0"%char.

Definition hex2 (n : N) : string :=
  String (hexDigit (n / 16)) (String (hexDigit (n mod 16)) "").

(** [strconv.Quote(string(c))] without its quotes, for a byte [c] other
    than the quotes and the backslash. *)
Definition escaped (c : ascii) : string :=
  let n := N_of_ascii c in
  if ((32 <=? n) && (n <? 127))%N then String c ""
  else if ((161 <=? n) && negb (n =? 173))%N
  then String (ascii_of_N (192 + n / 64)) (String (ascii_of_N (128 + n mod 64)) "")
  else if (n =? 7)%N then "\a"
  else if (n =? 8)%N then "\b"
  else if (n =? 12)%N then "\f"
  else if (n =? 10)%N then "\n"
  else if (n =? 13)%N then "\r"
  else if (n =? 9)%N then "\t"
  else if (n =? 11)%N then "\v"
  else if (n <? 128)%N then "\x" +:+ hex2 n
  else "\u00" +:+ hex2 n.

(** [quoteChar(c)] of [scanner.go]. *)
Definition quoteChar (c : ascii) : string :=
  if Ascii.eqb c "'" then "'\''"
  else if Ascii.eqb c "034" then String "'" (String "034" "'")
  else if Ascii.eqb c "\" then "'\\'"
  else "'" +:+ escaped c +:+ "'".

Definition typeError (value : string) : string :=
  "json: cannot unmarshal " +:+ value +:+ " into Go value of type int".

(** [Decode(&v)] for [v] of type [int] holding [v0]. *)
Definition decode (body : string) (v0 : Z) : string + Z :=
  match skipSpace body with
  | EmptyString => inl "EOF"%string
  | String c rest =>
      let found :=
        if Ascii.eqb c "n" then literal "null" "ull" rest
        else if Ascii.eqb c "t" then literal "true" "rue" rest
        else if Ascii.eqb c "f" then literal "false" "alse" rest
        else if Ascii.eqb c "-" then number stateNeg rest
        else if Ascii.eqb c "0" then number state0 rest
        else if isDigit c then number state1 rest
        else if Ascii.eqb c "034" || Ascii.eqb c "[" || Ascii.eqb c "{"
        then Value ""
        else Invalid c "looking for beginning of value" in
      match found with
      | Value item =>
          if Ascii.eqb c "n" then inr v0
          else if Ascii.eqb c "t" || Ascii.eqb c "f" then inl (typeError "bool")
          else if Ascii.eqb c "034" then inl (typeError "string")
          else if Ascii.eqb c "[" then inl (typeError "array")
          else if Ascii.eqb c "{" then inl (typeError "object")
          else match ParseInt (String c item) with
               | (n, None) => inr n
               | _ => inl (typeError ("number " +:+ String c item))
               end
      | Invalid c' context =>
          inl ("invalid character " +:+ quoteChar c' +:+ " " +:+ context)%string
      | UnexpectedEOF => inl "unexpected EOF"%string
      end
  end.

Definition requestWrite (r : http.Request) : list byte * option string :=
  (list_byte_of_string (http.Method r +:+ " " +:+ http.Path r
                        +:+ " HTTP/1.1" +:+ String "013"%char LF),
   None).

End Reference.

(** ** Requests to run the program on *)

Module Client.
Import http.

Definition request (method path body : string) : Request :=
  {| Method := method; Path := path; Query := ∅; Body := body;
     RemoteAddr := "192.0.2.7:40000" |}.

(** A process called [foo] on [host-1], with a loopback interface and an
    interface whose address is of another kind. *)
Definition someEnv : App.Env :=
  {| App.name := "foo"; App.hostname := "host-1";
     App.ifaces := [[App.IPNet "127.0.0.1"; App.IPNet "::1"];
                    [App.OtherAddr]] |}.

End Client.

(** ** The frames of an echo connection, in the words of the specification *)

Module EchoSpec.
Import App.

(** The frames that arrive before the first read error. *)
Fixpoint received (incoming : list Incoming) : list Message :=
  match incoming with
  | Frame msg :: rest => msg :: received rest
  | _ => []
  end.

End EchoSpec.

(** ** The identity report, in the words of the specification *)

Module IdentitySpec.
Import Go http App.

(** One fact per line, in a fixed order: the name if there is one, the
    host name, each address, the remote address. *)
Definition lines (env : Env) (req : Request) : list string :=
  (if bool_decide (name env = ""%string) then [] else ["Name: " +:+ name env])
  ++ ["Hostname: " +:+ hostname env]
  ++ (ipLine <$> concat (ifaces env))
  ++ ["RemoteAddr: " +:+ RemoteAddr req].

Definition text (ls : list string) : list byte :=
  concat ((fun l => list_byte_of_string (l +:+ LF)) <$> ls).

Definition report (env : Env) (req : Request) : list byte :=
  text (lines env req).

End IdentitySpec.

(** ** The paths the multiplexer matches as they stand *)

Module RouteSpec.
Import http.

(** The paths [main] registers besides the root. *)
Definition registered : list string :=
  ["/data"; "/echo"; "/bench"; "/api"; "/health"]%string.

(** The path of the request is in canonical form: it is its own cleaned
    form (it starts with a slash and has no empty, [.] or [..] element).
    In a [CONNECT] request, whose path the multiplexer does not clean,
    it is enough that the path starts with a slash. *)
Definition canonical (r : Request) : Prop :=
  if bool_decide (Method r = "CONNECT"%string)
  then strings.HasPrefix (Path r) "/" = true
  else cleanPath (Path r) = Path r.

End RouteSpec.

(** ** The size of a payload, in the words of the specification *)

Module DataSpec.
Import strconv http.

(** The [size] parameter: 1 when it is missing or is not an [int64]
    literal, 0 when it is negative. *)
Definition size (r : Request) : Z :=
  match ParseInt (Get (Query r) "size") with
  | (n, None) => if n <? 0 then 0 else n
  | (_, Some _) => 1
  end.

(** The multiplier of the [unit] parameter, compared in lower case. *)
Definition multiplier `{Library} (r : Request) : Z :=
  let unit := ToLower (Get (Query r) "unit") in
  if bool_decide (unit = "kb"%string) then 1024 ^ 1
  else if bool_decide (unit = "mb"%string) then 1024 ^ 2
  else if bool_decide (unit = "gb"%string) then 1024 ^ 3
  else if bool_decide (unit = "tb"%string) then 1024 ^ 4
  else 1.

(** The header fields of an attachment of [n] bytes. *)
Definition attachment `{Library} (n : nat) : gmap string (list string) :=
  list_to_map
    [("Content-Length", [FormatInt (Z.of_nat n)]);
     ("Accept-Ranges", ["bytes"]);
     ("Content-Type", ["text/plain; charset=utf-8"]);
     ("Last-Modified", [Now]);
     ("Content-Disposition", ["Attachment"])]%string.

(** A [GET] request for [/data] with the given query parameters. *)
Definition get (query : list (string * string)) : Request :=
  {| Method := "GET"; Path := "/data";
     Query := list_to_map ((fun kv => (kv.1, [kv.2])) <$> query);
     Body := ""; RemoteAddr := "" |}.

End DataSpec.

(** ** Runs of the handlers *)

Module Sessions.
Import Go strconv http App.

(** Requests to [/health] served one after the other. *)
Definition serveHealthAll `{Library} (reqs : list Request) (σ : World) : World :=
  foldl (fun σ r => (serveHealth r σ).1) σ reqs.

(** The status code a request to [/health] stores: that of a [POST] whose
    body decodes. *)
Definition accepted `{Library} (r : Request) : option Z :=
  if bool_decide (Method r = MethodPost) then
    match Decode (Body r) 0 with
    | inr statusCode => Some statusCode
    | inl _ => None
    end
  else None.

(** The line [healthHandler] prints for a code it stores. *)
Definition healthLine (statusCode : Z) : string :=
  "Update health check status code [" +:+ FormatInt statusCode +:+ "]" +:+ LF.

(** What [printBinary] prints for the payload of a frame, call by call. *)
Definition frameLog (msg : Message) : list string :=
  ["Received b:"%string]
  ++ ((fun c => FormatInt (Z.of_N (Byte.to_N c)) +:+ ",") <$> payload msg)
  ++ [LF].

End Sessions.

(** ** Goroutines that can move *)

Module Progress.
Import Concurrent.

(** The goroutine has left [healthHandler]. *)
Definition returned (g : goroutine) : bool :=
  match g with
  | PostReturned _ | GetReturned _ => true
  | _ => false
  end.

(** Goroutine [i] can take its next step. *)
Definition canStep (s : state) (i : nat) : Prop :=
  ∃ g, goroutines s !! i = Some g
       ∧ is_Some (advance g (mutexHealthState s) (StatusCode s)).

End Progress.

(** * The payload generator *)

Section FillContent.
Import Go App.

#[local] Abbreviation pattern := (list_byte_of_string charset).

Lemma len_charset : len charset = 27.
Proof. reflexivity. Qed.

Lemma string_index_charset (i : Z) :
  0 ≤ i →
  ∃ c, string_index charset (Z.rem i (len charset)) = Ok c
       ∧ pattern !! Z.to_nat (i `mod` 27) = Some c.
Proof.
  intros Hi. rewrite len_charset, Z.rem_mod_nonneg by lia.
  assert (Hlt : (Z.to_nat (i `mod` 27) < length pattern)%nat).
  { change (length pattern) with 27%nat.
    pose proof (Z.mod_pos_bound i 27). lia. }
  apply lookup_lt_is_Some_2 in Hlt as [c Hc].
  exists c. split; [|done].
  unfold string_index.
  destruct (Z.leb_spec 0 (i `mod` 27)) as [_|Hneg].
  - by rewrite Hc.
  - pose proof (Z.mod_pos_bound i 27). lia.
Qed.

Lemma slice_set_ok (b : list byte) (i : Z) (x : byte) :
  0 ≤ i < Z.of_nat (length b) →
  slice_set b i x = Ok (<[Z.to_nat i := x]> b).
Proof.
  intros [H0 H1]. unfold slice_set.
  destruct (Z.leb_spec 0 i); [|lia].
  destruct (Z.ltb_spec i (Z.of_nat (length b))); [done|lia].
Qed.

(** The loop fills the indices it visits and leaves the others alone. *)
Lemma fillLoop_inv (m : nat) :
  ∀ (k : nat) (b : list byte),
    (k + m ≤ length b)%nat →
    ∃ b', fillLoop (seqZ (Z.of_nat k) (Z.of_nat m)) b = Ok b'
          ∧ length b' = length b
          ∧ ∀ j : nat,
              b' !! j = if decide (k ≤ j < k + m)%nat
                        then pattern !! (j `mod` 27)%nat
                        else b !! j.
Proof.
  induction m as [|m IH]; intros k b Hlen.
  - exists b. split; [by rewrite seqZ_nil|]. split; [done|].
    intros j. case_decide; [lia|done].
  - rewrite seqZ_cons by lia. cbn [fillLoop].
    destruct (string_index_charset (Z.of_nat k)) as (c & -> & Hc); [lia|].
    cbn [mbind result_bind].
    rewrite slice_set_ok by lia. cbn [mbind result_bind].
    replace (Z.succ (Z.of_nat k)) with (Z.of_nat (S k)) by lia.
    replace (Z.pred (Z.of_nat (S m))) with (Z.of_nat m) by lia.
    destruct (IH (S k) (<[Z.to_nat (Z.of_nat k) := c]> b)) as (b' & Hrun & Hl & Hlook).
    { rewrite length_insert. lia. }
    exists b'. split; [done|]. split.
    { by rewrite Hl, length_insert. }
    intros j. rewrite Hlook, Nat2Z.id.
    replace (Z.to_nat (Z.of_nat k `mod` 27)) with (k `mod` 27)%nat in Hc
      by (rewrite <- (Nat2Z.id (k `mod` 27)), Nat2Z.inj_mod; done).
    destruct (decide (j = k)) as [->|Hne].
    + rewrite decide_False by lia. rewrite decide_True by lia.
      rewrite list_lookup_insert_eq by lia. done.
    + rewrite list_lookup_insert_ne by done.
      repeat case_decide; first [done | lia].
Qed.

(** What [fillContent] returns for a length that [make] accepts, index
    by index. *)
Lemma fillContent_lookup (n : nat) :
  Z.of_nat n ≤ maxAlloc →
  ∃ b, fillContent (Z.of_nat n) = Ok b
       ∧ length b = n
       ∧ ∀ j : nat,
           (j < n)%nat →
           b !! j = if decide (j = 0 ∨ j = n - 1)%nat
                    then Some "|"%byte
                    else pattern !! (j `mod` 27)%nat.
Proof.
  intros Hmax. unfold fillContent, make_bytes.
  destruct (Z.ltb_spec (Z.of_nat n) 0) as [?|_]; [lia|].
  destruct (Z.ltb_spec maxAlloc (Z.of_nat n)) as [?|_]; [lia|].
  cbn [orb mbind result_bind]. rewrite Nat2Z.id, length_replicate.
  destruct (fillLoop_inv n 0 (replicate n x00)) as (b & Hrun & Hl & Hlook).
  { rewrite length_replicate. lia. }
  change (Z.of_nat 0) with 0 in Hrun. rewrite Hrun. cbn [mbind result_bind].
  rewrite length_replicate in Hl.
  destruct (Z.ltb_spec 0 (Z.of_nat n)) as [Hpos|Hzero].
  - rewrite slice_set_ok by lia. cbn [mbind result_bind].
    rewrite slice_set_ok by (rewrite length_insert; lia).
    eexists. split; [done|]. split.
    { by rewrite !length_insert. }
    intros j Hj.
    replace (Z.to_nat (Z.of_nat n - 1)) with (n - 1)%nat by lia.
    change (Z.to_nat 0) with 0%nat.
    destruct (decide (j = n - 1)%nat) as [->|Hlast].
    { rewrite list_lookup_insert_eq by (rewrite length_insert; lia).
      by rewrite decide_True by lia. }
    rewrite list_lookup_insert_ne by done.
    destruct (decide (j = 0)%nat) as [->|Hfirst].
    { rewrite list_lookup_insert_eq by lia. by rewrite decide_True by lia. }
    rewrite list_lookup_insert_ne by done.
    rewrite Hlook, decide_True by lia. by rewrite decide_False by lia.
  - exists b. split; [done|]. split; [done|]. intros j Hj. lia.
Qed.

(** The length and the two ends of the payload. *)
Lemma fillContent_ends (n : Z) :
  0 ≤ n ≤ maxAlloc →
  ∃ b, fillContent n = Ok b
       ∧ Z.of_nat (length b) = n
       ∧ (0 < n → head b = Some "|"%byte ∧ last b = Some "|"%byte).
Proof.
  intros Hn.
  destruct (fillContent_lookup (Z.to_nat n)) as (b & Hrun & Hl & Hlook);
    [lia|].
  rewrite Z2Nat.id in Hrun by lia.
  exists b. split; [done|]. split; [lia|]. intros Hpos.
  rewrite head_lookup, last_lookup, !Hlook by lia.
  by rewrite !decide_True by lia.
Qed.

(** [make] refuses a length on either side of what it can allocate. *)
Lemma fillContent_refused (n : Z) :
  n < 0 ∨ maxAlloc < n →
  fillContent n = Panic "runtime error: makeslice: len out of range".
Proof.
  intros Hn. unfold fillContent, make_bytes.
  destruct (Z.ltb_spec n 0); [done|].
  by destruct (Z.ltb_spec maxAlloc n); [|lia].
Qed.

(** ** C1, as amended. For every length [n] from 0 up to the allocation
    limit of the runtime ([maxAlloc], which is [2^48] bytes),
    [fillContent n] returns [n] bytes; when [n > 0] the first and the last
    byte are the sentinel [|], and every byte in between, at position [i],
    is [charset[i mod 27]], where [charset] is the dash followed by the 26
    upper-case letters. *)
Theorem fillContent_spec (n : Z) :
  0 ≤ n ≤ maxAlloc →
  ∃ b, fillContent n = Ok b
       ∧ Z.of_nat (length b) = n
       ∧ (0 < n → b !! 0%nat = Some "|"%byte
                  ∧ b !! Z.to_nat (n - 1) = Some "|"%byte)
       ∧ (∀ i, 0 < i < n - 1 →
               b !! Z.to_nat i = pattern !! Z.to_nat (i `mod` len charset))
       ∧ charset = "-ABCDEFGHIJKLMNOPQRSTUVWXYZ"%string
       ∧ len charset = 27
       ∧ maxAlloc = 2 ^ 48.
Proof.
  intros Hn.
  destruct (fillContent_lookup (Z.to_nat n)) as (b & Hrun & Hl & Hlook);
    [lia|].
  rewrite Z2Nat.id in Hrun by lia.
  exists b. split; [done|]. split; [lia|].
  split; [|split; [|done]].
  - intros Hpos. split.
    + rewrite Hlook by lia. by rewrite decide_True by lia.
    + rewrite Hlook by lia. by rewrite decide_True by lia.
  - intros i Hi. rewrite Hlook by lia. rewrite decide_False by lia.
    rewrite len_charset. f_equal.
    rewrite <- (Nat2Z.id (_ `mod` _)%nat), Nat2Z.inj_mod.
    by rewrite Z2Nat.id by lia.
Qed.

Lemma fillContent_spec_witness :
  0 ≤ 30 ≤ maxAlloc
  ∧ ∃ b, fillContent 30 = Ok b
         ∧ Z.of_nat (length b) = 30
         ∧ (0 < 30 → b !! 0%nat = Some "|"%byte
                     ∧ b !! Z.to_nat (30 - 1) = Some "|"%byte)
         ∧ (∀ i, 0 < i < 30 - 1 →
                 b !! Z.to_nat i = pattern !! Z.to_nat (i `mod` len charset))
         ∧ charset = "-ABCDEFGHIJKLMNOPQRSTUVWXYZ"%string
         ∧ len charset = 27
         ∧ maxAlloc = 2 ^ 48.
Proof.
  assert (Hn : 0 ≤ 30 ≤ maxAlloc) by (by vm_compute).
  split; [done|]. exact (fillContent_spec 30 Hn).
Defined.

(** [fillContent(1 << 62)]: the length is not negative, and [make]
    panics; there is no payload of that length. *)
Lemma fillContent_spec_counterexample :
  0 ≤ 2 ^ 62
  ∧ fillContent (2 ^ 62) = Panic "runtime error: makeslice: len out of range"
  ∧ ¬ ∃ b, fillContent (2 ^ 62) = Ok b ∧ Z.of_nat (length b) = 2 ^ 62.
Proof.
  assert (Hp : fillContent (2 ^ 62)
               = Panic "runtime error: makeslice: len out of range")
    by (by vm_compute).
  split; [lia|]. split; [done|]. intros (b & Hb & _). congruence.
Qed.

End FillContent.

(** * Decimal numbers: [FormatInt] and [ParseInt] *)

Section Decimal.
Import Go strconv Reference.

Lemma digit_range (c : ascii) (d : Z) :
  digit c = Some d → (48 ≤ N_of_ascii c ≤ 57)%N ∧ d = Z.of_N (N_of_ascii c) - 48.
Proof.
  unfold digit. intros Hd.
  destruct (Z.leb_spec 48 (Z.of_N (N_of_ascii c))); [|done].
  destruct (Z.leb_spec (Z.of_N (N_of_ascii c)) 57); [|done].
  simplify_eq/=. lia.
Qed.

Lemma digit_not (c c' : ascii) (d : Z) :
  digit c = Some d → digit c' = None → Ascii.eqb c c' = false.
Proof.
  intros Hd Hn. destruct (Ascii.eqb_spec c c') as [->|]; [congruence|done].
Qed.

Lemma digit_not_space (c : ascii) (d : Z) : digit c = Some d → isSpace c = false.
Proof.
  intros Hd. apply bool_decide_eq_false. rewrite !elem_of_cons, elem_of_nil.
  intros [->|[->|[->|[->|[]]]]]; discriminate.
Qed.

Lemma digits_Zpos (u : Decimal.uint) :
  ∀ acc : positive,
    digits (NilEmpty.string_of_uint u) (Z.pos acc)
    = Some (Z.pos (Pos.of_uint_acc u acc)).
Proof.
  induction u; intros acc; cbn [NilEmpty.string_of_uint digits Pos.of_uint_acc];
    [done|..];
    (etransitivity; [|apply IHu]); f_equal;
    try reflexivity; simpl (N_of_ascii _); lia.
Qed.

Lemma digits_0 (u : Decimal.uint) :
  digits (NilEmpty.string_of_uint u) 0 = Some (Z.of_N (Pos.of_uint u)).
Proof.
  induction u; cbn [NilEmpty.string_of_uint digits Pos.of_uint];
    [done| |..]; [exact IHu|..]; apply (digits_Zpos u).
Qed.

(** The decimal text of a positive number: digits, the first one from 1
    to 9, that read back as the number. *)
Lemma to_uint_text (p : positive) :
  ∃ c rest d,
    NilEmpty.string_of_uint (Pos.to_uint p) = String c rest
    ∧ digit c = Some d ∧ Ascii.eqb c "0" = false
    ∧ digits (String c rest) 0 = Some (Z.pos p).
Proof.
  pose proof (digits_0 (Pos.to_uint p)) as Hd.
  rewrite DecimalPos.Unsigned.of_to in Hd.
  pose proof (DecimalPos.Unsigned.to_of (Pos.to_uint p)) as Hn.
  rewrite DecimalPos.Unsigned.of_to in Hn. cbn [N.to_uint] in Hn.
  pose proof (DecimalPos.Unsigned.to_uint_nonzero p) as Hz.
  destruct (Pos.to_uint p) as [|u|u|u|u|u|u|u|u|u|u] eqn:E;
    cbn [NilEmpty.string_of_uint] in *;
    [exfalso; simpl in Hd; discriminate| |..];
    try (eexists _, _, _; split; [done|]; split; [done|]; split; done).
  exfalso. rewrite DecimalFacts.unorm_D0 in Hn. unfold Decimal.unorm in Hn.
  pose proof (DecimalFacts.nb_digits_nzhead u) as Hlen.
  destruct (Decimal.nzhead u) eqn:E'; simplify_eq; try done.
  cbn [Decimal.nb_digits] in Hlen. lia.
Qed.

Lemma FormatInt_pos (p : positive) :
  FormatInt (Z.pos p) = NilEmpty.string_of_uint (Pos.to_uint p).
Proof.
  unfold FormatInt. cbn [Z.to_int NilZero.string_of_int NilZero.string_of_uint].
  pose proof (DecimalPos.Unsigned.to_uint_nonnil p).
  by destruct (Pos.to_uint p).
Qed.

Lemma FormatInt_neg (p : positive) :
  FormatInt (Z.neg p) = String "-" (NilEmpty.string_of_uint (Pos.to_uint p)).
Proof.
  unfold FormatInt. cbn [Z.to_int NilZero.string_of_int NilZero.string_of_uint].
  pose proof (DecimalPos.Unsigned.to_uint_nonnil p).
  by destruct (Pos.to_uint p).
Qed.

Lemma ParseInt_unsigned (c : ascii) (rest : string) (d un : Z) :
  digit c = Some d →
  digits (String c rest) 0 = Some un →
  ParseInt (String c rest)
  = if 2 ^ 63 <=? un then (2 ^ 63 - 1, Some ErrRange) else (un, None).
Proof.
  intros Hc Hun. unfold ParseInt.
  rewrite (digit_not c "+" d), (digit_not c "-" d) by done.
  unfold magnitude. rewrite Hun. cbn [negb andb]. done.
Qed.

Lemma ParseInt_negative (c : ascii) (rest : string) (d un : Z) :
  digit c = Some d →
  digits (String c rest) 0 = Some un →
  ParseInt (String "-" (String c rest))
  = if 2 ^ 63 <? un then (- 2 ^ 63, Some ErrRange) else (- un, None).
Proof.
  intros Hc Hun. unfold ParseInt.
  change (Ascii.eqb "-" "+") with false. change (Ascii.eqb "-" "-") with true.
  unfold magnitude. rewrite Hun. cbn [negb andb]. done.
Qed.

(** Reading back what [FormatInt] prints. *)
Lemma ParseInt_FormatInt (z : Z) :
  inInt64 z → ParseInt (FormatInt z) = (z, None).
Proof.
  unfold inInt64, MinInt64, MaxInt64. intros Hz.
  destruct z as [|p|p].
  - reflexivity.
  - rewrite FormatInt_pos.
    destruct (to_uint_text p) as (c & rest & d & -> & Hc & _ & Hd).
    rewrite (ParseInt_unsigned c rest d (Z.pos p)) by done.
    destruct (Z.leb_spec (2 ^ 63) (Z.pos p)); [lia|done].
  - rewrite FormatInt_neg.
    destruct (to_uint_text p) as (c & rest & d & -> & Hc & _ & Hd).
    rewrite (ParseInt_negative c rest d (Z.pos p)) by done.
    destruct (Z.ltb_spec (2 ^ 63) (Z.pos p)); [lia|done].
Qed.

(** The decimal text of a number begins with a minus sign or a digit. *)
Lemma FormatInt_head (z : Z) :
  ∃ a rest, FormatInt z = String a rest ∧ (a = "-"%char ∨ is_Some (digit a)).
Proof.
  destruct z as [|p|p].
  - exists "0"%char, ""%string. split; [done|]. right. by eexists.
  - rewrite FormatInt_pos.
    destruct (to_uint_text p) as (a & rest & d & -> & Ha & _).
    exists a, rest. split; [done|]. right. by eexists.
  - rewrite FormatInt_neg. eexists _, _. split; [done|]. by left.
Qed.

Lemma digit_isDigit (c : ascii) (d : Z) : digit c = Some d → isDigit c = true.
Proof. intros Hd. apply bool_decide_eq_true. by rewrite Hd. Qed.

(** Inside the integer part the scanner takes every digit. *)
Lemma number_digits (s : string) :
  ∀ acc v, digits s acc = Some v → number state1 s = Value s.
Proof.
  induction s as [|c s IH]; intros acc v Hv; [done|].
  cbn [digits] in Hv. destruct (digit c) as [d|] eqn:Hc; [|done].
  cbn [number stepNumber]. rewrite (digit_isDigit c d Hc).
  by rewrite (IH _ _ Hv).
Qed.

Lemma skipSpace_cons (c : ascii) (s : string) :
  isSpace c = false → skipSpace (String c s) = String c s.
Proof. intros Hc. cbn [skipSpace]. by rewrite Hc. Qed.

(** A value that begins with a digit from 1 to 9. *)
Lemma decode_digits (c : ascii) (rest : string) (d v v0 : Z) :
  digit c = Some d → Ascii.eqb c "0" = false →
  digits (String c rest) 0 = Some v →
  decode (String c rest) v0
  = match ParseInt (String c rest) with
    | (n, None) => inr n
    | _ => inl (typeError ("number " +:+ String c rest))
    end.
Proof.
  intros Hc H0 Hv. unfold decode.
  rewrite skipSpace_cons by (by eapply digit_not_space).
  cbn [digits] in Hv. rewrite Hc in Hv.
  rewrite (number_digits _ _ _ Hv), H0, (digit_isDigit c d Hc).
  by rewrite !(digit_not c _ d Hc) by done.
Qed.

(** The reference decoder reads the decimal text of every [int]. *)
Lemma decode_FormatInt (c v0 : Z) :
  inInt64 c → decode (FormatInt c) v0 = inr c.
Proof.
  intros Hc. pose proof (ParseInt_FormatInt c Hc) as Hparse.
  destruct c as [|p|p].
  - done.
  - rewrite FormatInt_pos in *.
    destruct (to_uint_text p) as (a & rest & d & Heq & Ha & H0 & Hd).
    rewrite Heq in *.
    by rewrite (decode_digits a rest d _ v0 Ha H0 Hd), Hparse.
  - rewrite FormatInt_neg in *.
    destruct (to_uint_text p) as (a & rest & d & Heq & Ha & H0 & Hd).
    rewrite Heq in *. unfold decode.
    rewrite skipSpace_cons by done.
    change (Ascii.eqb "-" "n") with false. change (Ascii.eqb "-" "t") with false.
    change (Ascii.eqb "-" "f") with false. change (Ascii.eqb "-" "-") with true.
    cbn [number stepNumber orb]. rewrite H0, (digit_isDigit a d Ha).
    cbn [digits] in Hd. rewrite Ha in Hd.
    rewrite (number_digits _ _ _ Hd). cbn [more].
    change (Ascii.eqb "-" "034") with false. change (Ascii.eqb "-" "[") with false.
    change (Ascii.eqb "-" "{") with false. cbn [orb].
    by rewrite Hparse.
Qed.

End Decimal.

(** The reference library meets what [Library] asks for. *)
#[export] Instance reference : Library := {|
ToLower := strings.lowerASCII;
ToLower_ascii := fun _ _ => eq_refl;
Decode := Reference.decode;
Decode_literal := decode_FormatInt;
RequestWrite := Reference.requestWrite;
Now := "Mon, 02 Jan 2006 15:04:05 GMT";
|}.

(** * The data handler *)

Section Data.
Import Go strconv http App.
Context `{Library}.

Lemma wrap64_id (z : Z) : inInt64 z → wrap64 z = z.
Proof.
  unfold inInt64, MinInt64, MaxInt64, wrap64. intros Hz.
  rewrite Z.mod_small by lia. lia.
Qed.

Lemma units : KB = 1024 ^ 1 ∧ MB = 1024 ^ 2 ∧ GB = 1024 ^ 3 ∧ TB = 1024 ^ 4.
Proof. by vm_compute. Qed.

Lemma digits_nonneg (s : string) :
  ∀ acc v, 0 ≤ acc → digits s acc = Some v → 0 ≤ v.
Proof.
  induction s as [|c s IH]; intros acc v Hacc Hv; cbn [digits] in Hv.
  - by simplify_eq.
  - destruct (digit c) as [d|] eqn:Hc; [|done].
    apply digit_range in Hc as [Hc ->]. eapply IH; [|done]. lia.
Qed.

(** What [ParseInt] returns without an error is an [int64]. *)
Lemma ParseInt_range (s : string) (n : Z) :
  ParseInt s = (n, None) → inInt64 n.
Proof.
  unfold ParseInt, inInt64, MinInt64, MaxInt64.
  destruct s as [|c rest]; [done|].
  destruct (if Ascii.eqb c "+" then _ else _) as [neg s].
  unfold magnitude.
  destruct s as [|c' s]; [done|].
  destruct (digits (String c' s) 0) as [un|] eqn:Hun; [|done].
  apply digits_nonneg in Hun; [|done].
  destruct neg; cbn [negb andb].
  - destruct (Z.ltb_spec (2 ^ 63) un); [done|]. intros [= <-]. lia.
  - destruct (Z.leb_spec (2 ^ 63) un); [done|]. intros [= <-]. lia.
Qed.

Lemma size_range (r : Request) : 0 ≤ DataSpec.size r ≤ MaxInt64.
Proof.
  unfold DataSpec.size.
  destruct (ParseInt _) as [n [e|]] eqn:Hp; [by unfold MaxInt64|].
  apply ParseInt_range in Hp. unfold inInt64 in Hp.
  destruct (Z.ltb_spec n 0); unfold MaxInt64 in *; lia.
Qed.

Lemma multiplier_pos (r : Request) : 1 ≤ DataSpec.multiplier r.
Proof. unfold DataSpec.multiplier. repeat case_bool_decide; lia. Qed.

(** The length handed to [fillContent] is the product of size and
    multiplier, wrapped to 64 bits. *)
Lemma dataSize_wrap (r : Request) :
  dataSize r = wrap64 (DataSpec.size r * DataSpec.multiplier r).
Proof.
  pose proof (size_range r) as Hs.
  unfold dataSize, DataSpec.size, DataSpec.multiplier, mul64 in *.
  destruct units as (-> & -> & -> & ->).
  destruct (ParseInt _) as [n [e|]];
    repeat case_bool_decide; try done;
    rewrite Z.mul_1_r, wrap64_id; try done;
    unfold inInt64, MinInt64, MaxInt64 in *; lia.
Qed.

Lemma dataSize_exact (r : Request) :
  DataSpec.size r * DataSpec.multiplier r ≤ MaxInt64 →
  dataSize r = DataSpec.size r * DataSpec.multiplier r.
Proof.
  intros Hfit. rewrite dataSize_wrap. apply wrap64_id.
  pose proof (size_range r). pose proof (multiplier_pos r).
  unfold inInt64, MinInt64. split; [nia|done].
Qed.

Lemma fillContent_negative (n : Z) :
  n < 0 → fillContent n = Panic "runtime error: makeslice: len out of range".
Proof.
  intros Hn. unfold fillContent, make_bytes.
  by destruct (Z.ltb_spec n 0); [|lia].
Qed.

(** The response to a [GET] carries the generated bytes, whether sent as
    an attachment or not. *)
Lemma serveData_ok (r : Request) (b : list byte) :
  Method r = "GET"%string →
  fillContent (dataSize r) = Ok b →
  ∃ w, serveData r = Ok w ∧ status w = StatusOK ∧ written w = b
       ∧ informational w = [].
Proof.
  intros Hget Hfill. unfold serveData, respond, dataHandler.
  rewrite Hfill. cbn [mbind result_bind].
  destruct (dataAttachment r).
  - unfold ServeContent. rewrite Hget.
    eexists. split; [reflexivity|]. done.
  - destruct b as [|c b]; (eexists; split; [reflexivity|]; done).
Qed.

Lemma serveData_panic (r : Request) (msg : string) :
  fillContent (dataSize r) = Panic msg → serveData r = Panic msg.
Proof.
  intros Hfill. unfold serveData, respond, dataHandler. by rewrite Hfill.
Qed.

Lemma maxAlloc_fits : 0 < maxAlloc ≤ MaxInt64.
Proof. by vm_compute. Qed.

(** A product that [make] accepts is handed to [fillContent] as it is. *)
Lemma dataSize_within (r : Request) :
  DataSpec.size r * DataSpec.multiplier r ≤ maxAlloc →
  dataSize r = DataSpec.size r * DataSpec.multiplier r
  ∧ 0 ≤ dataSize r ≤ maxAlloc.
Proof.
  intros Hfit. pose proof maxAlloc_fits.
  rewrite dataSize_exact by lia. split; [done|].
  pose proof (size_range r). pose proof (multiplier_pos r). nia.
Qed.

(** ** C5, as amended. A [GET /data] whose size times multiplier is at
    most the allocation limit of the runtime ([maxAlloc], [2^48]) is
    answered with status 200 and exactly size times multiplier bytes, the
    bytes [fillContent] generates for that length: the size is 1 when the
    [size] parameter is missing or does not parse, 0 when it is negative;
    the multiplier is [1024^n] when the [unit] parameter, in lower case,
    is kb, mb, gb or tb, and 1 otherwise. A body that is not empty starts
    and ends with the sentinel. (The request carries no [Range] and no
    conditional header, as every [Request] here.) *)
Theorem data_body (r : Request) :
  Method r = "GET"%string →
  DataSpec.size r * DataSpec.multiplier r ≤ maxAlloc →
  ∃ w, serveData r = Ok w
       ∧ status w = StatusOK
       ∧ fillContent (DataSpec.size r * DataSpec.multiplier r) = Ok (written w)
       ∧ Z.of_nat (length (written w)) = DataSpec.size r * DataSpec.multiplier r
       ∧ (0 < DataSpec.size r * DataSpec.multiplier r →
          head (written w) = Some "|"%byte ∧ last (written w) = Some "|"%byte).
Proof.
  intros Hget Hfit. destruct (dataSize_within r Hfit) as [Heq Hrange].
  rewrite <- Heq.
  destruct (fillContent_ends (dataSize r) Hrange) as (b & Hfill & Hlen & Hends).
  destruct (serveData_ok r b Hget Hfill) as (w & Hw & Hst & Hb & _).
  exists w. rewrite Hb. done.
Qed.

(** When the product fits, the length handed to the generator is not
    negative. *)
Lemma dataSize_nonneg (r : Request) :
  DataSpec.size r * DataSpec.multiplier r ≤ MaxInt64 → 0 ≤ dataSize r.
Proof.
  intros Hfit. rewrite (dataSize_exact r Hfit).
  pose proof (size_range r). pose proof (multiplier_pos r). nia.
Qed.

(** ** C2. The request [/data?size=9007199254740992&unit=kb]: the size is
    accepted, its product with [KB] wraps around to [-2^63], and
    [fillContent] panics on the negative length. *)
Theorem dataSize_overflow :
  let r := DataSpec.get [("size", "9007199254740992"); ("unit", "kb")]%string in
  dataSize r = - 2 ^ 63
  ∧ serveData r = Panic "runtime error: makeslice: len out of range".
Proof.
  intros r.
  assert (Hr : dataSize r = - 2 ^ 63).
  { unfold dataSize. change (Get (Query r) "size") with "9007199254740992"%string.
    change (Get (Query r) "unit") with "kb"%string.
    rewrite (ToLower_ascii "kb") by done.
    by vm_compute. }
  split; [done|]. apply serveData_panic. rewrite Hr.
  by apply fillContent_negative.
Qed.

End Data.

Section DataExamples.
Import Go strconv http App.

Lemma data_body_witness :
  let r := DataSpec.get [("size", "10"); ("unit", "kb")]%string in
  Method r = "GET"%string
  ∧ DataSpec.size r * DataSpec.multiplier r ≤ maxAlloc
  ∧ ∃ w, serveData r = Ok w
         ∧ status w = StatusOK
         ∧ Z.of_nat (length (written w)) = 10240
         ∧ head (written w) = Some "|"%byte
         ∧ last (written w) = Some "|"%byte.
Proof.
  intros r.
  assert (Hsize : DataSpec.size r * DataSpec.multiplier r = 10240)
    by (by vm_compute).
  assert (Hfit : DataSpec.size r * DataSpec.multiplier r ≤ maxAlloc)
    by (by vm_compute).
  split; [done|]. split; [done|].
  destruct (data_body r eq_refl Hfit) as (w & Hw & Hst & _ & Hlen & Hends).
  rewrite Hsize in Hlen, Hends.
  exists w. split; [done|]. split; [done|]. split; [done|].
  apply Hends. lia.
Defined.

(** [GET /data?size=-5]: an empty body. *)
Lemma data_negative_size :
  ∃ w, serveData (DataSpec.get [("size", "-5")]%string) = Ok w
       ∧ status w = StatusOK ∧ written w = [].
Proof. eexists. split; [by vm_compute|]. done. Qed.

(** [GET /data]: one byte. *)
Lemma data_missing_size :
  ∃ w, serveData (DataSpec.get []) = Ok w
       ∧ status w = StatusOK ∧ written w = ["|"%byte].
Proof. eexists. split; [by vm_compute|]. done. Qed.

(** [GET /data?size=4611686018427387904]: size times multiplier is
    [2^62], an [int64], and the handler panics in [make]: there is no
    body of that length, and no response. *)
Lemma data_body_counterexample :
  let r := DataSpec.get [("size", "4611686018427387904")]%string in
  DataSpec.size r * DataSpec.multiplier r = 2 ^ 62
  ∧ dataSize r = 2 ^ 62
  ∧ serveData r = Panic "runtime error: makeslice: len out of range"
  ∧ ¬ ∃ w, serveData r = Ok w
           ∧ Z.of_nat (length (written w))
             = DataSpec.size r * DataSpec.multiplier r.
Proof.
  intros r.
  assert (Hp : serveData r = Panic "runtime error: makeslice: len out of range")
    by (by vm_compute).
  split; [by vm_compute|]. split; [by vm_compute|]. split; [done|].
  intros (w & Hw & _). congruence.
Qed.

End DataExamples.

(** * The health handler *)

Section Health.
Import Go strconv http sync App.
Context `{Library}.

Lemma WriteHeader_final (code : Z) :
  finalStatus code →
  WriteHeader code newResponse
  = Ok {| Header := ∅; wroteHeader := true; status := code;
          informational := []; written := [] |}.
Proof.
  unfold finalStatus, WriteHeader. intros Hc.
  cbn [wroteHeader newResponse].
  destruct (Z.ltb_spec code 100); [lia|].
  destruct (Z.ltb_spec 999 code); [lia|]. cbn [orb].
  destruct (Z.leb_spec code 199); [lia|]. by rewrite andb_false_r.
Qed.

Lemma WriteHeader_invalid (code : Z) :
  code < 100 ∨ 999 < code →
  WriteHeader code newResponse
  = Panic ("invalid WriteHeader code " +:+ FormatInt code).
Proof.
  unfold WriteHeader. intros Hc. cbn [wroteHeader newResponse].
  destruct (Z.ltb_spec code 100); [done|].
  destruct (Z.ltb_spec 999 code); [done|lia].
Qed.

(** The read path: the stored code goes to [WriteHeader], the read lock
    is taken and released, nothing else changes. *)
Lemma healthHandler_read (req : Request) (σ : World) :
  Method req ≠ MethodPost →
  mutexHealthState σ = unlocked →
  healthHandler newResponse req σ
  = (σ, WriteHeader (StatusCode (currentHealthState σ)) newResponse).
Proof.
  intros Hm Hmu. destruct σ as [hs mu out lg]. cbn in Hmu. subst mu.
  unfold healthHandler. by rewrite bool_decide_eq_false_2 by done.
Qed.

(** The write path after a successful decode. *)
Lemma healthHandler_write (req : Request) (σ : World) (code : Z) :
  Method req = MethodPost →
  Decode (Body req) 0 = inr code →
  mutexHealthState σ = unlocked →
  healthHandler newResponse req σ
  = (setStatusCode code
       (Printf ("Update health check status code [" +:+ FormatInt code
                +:+ "]" +:+ LF) σ),
     Ok newResponse).
Proof.
  intros Hm Hd Hmu. destruct σ as [hs mu out lg]. cbn in Hmu. subst mu.
  unfold healthHandler.
  rewrite bool_decide_eq_true_2 by done. by rewrite Hd.
Qed.

(** ** C3, as amended. A [POST /health] whose body the decoder refuses
    ([Decode] returns an error) is answered with status 400 and the text
    of the decode error, ended by the line feed [http.Error] appends, as
    the body; the process state is unchanged, so a later request is
    answered as it would have been before. (The decoder does not refuse
    every body that is not an integer: see the examples.) *)
Theorem health_post_malformed (req : Request) (σ : World) (err : string) :
  Method req = MethodPost →
  Decode (Body req) 0 = inl err →
  ∃ w, serveHealth req σ = (σ, Ok w)
       ∧ status w = StatusBadRequest
       ∧ written w = list_byte_of_string (err +:+ LF)
       ∧ ∀ next : Request,
           serveHealth next (serveHealth req σ).1 = serveHealth next σ.
Proof.
  intros Hm Hd.
  assert (Hs : serveHealth req σ
               = (σ, respond (http.Error newResponse err StatusBadRequest))).
  { unfold serveHealth, healthHandler.
    rewrite bool_decide_eq_true_2 by done. by rewrite Hd. }
  rewrite Hs. eexists. split; [reflexivity|]. done.
Qed.

(** ** C4, as amended. For every [c] in the range of [int], a
    [POST /health] whose body is the JSON encoding of [c] succeeds with
    status 200 and an empty body, without any check of [c], and stores
    [c]. A following [GET /health] is answered with status [c] and an
    empty body when [c] lies between 200 and 999, and leaves the state as
    it is. Before any [POST] the stored code is 200. *)
Theorem health_post_get (c : Z) (post get : Request) (σ : World) :
  inInt64 c →
  Method post = MethodPost → Body post = FormatInt c →
  Method get = "GET"%string →
  mutexHealthState σ = unlocked →
  let σ' := (serveHealth post σ).1 in
  (∃ w, (serveHealth post σ).2 = Ok w
        ∧ status w = StatusOK ∧ written w = [])
  ∧ StatusCode (currentHealthState σ') = c
  ∧ mutexHealthState σ' = unlocked
  ∧ (finalStatus c →
     ∃ w, serveHealth get σ' = (σ', Ok w)
          ∧ status w = c ∧ written w = [] ∧ informational w = [])
  ∧ StatusCode (currentHealthState initial) = 200.
Proof.
  intros Hc Hp Hb Hg Hmu σ'.
  assert (Hd : Decode (Body post) 0 = inr c)
    by (rewrite Hb; by apply Decode_literal).
  assert (Hpost : serveHealth post σ
                  = (setStatusCode c
                       (Printf ("Update health check status code ["
                                +:+ FormatInt c +:+ "]" +:+ LF) σ),
                     respond (Ok newResponse))).
  { unfold serveHealth. by rewrite (healthHandler_write post σ c). }
  subst σ'. rewrite Hpost. cbn [fst snd].
  split; [by eexists|]. split; [done|]. split; [done|]. split; [|done].
  intros Hfinal. unfold serveHealth.
  rewrite healthHandler_read by (by rewrite ?Hg).
  cbn [StatusCode currentHealthState setStatusCode].
  rewrite WriteHeader_final by done. by eexists.
Qed.

(** ** C10, as amended. A request to [/health] with any method other
    than [POST] takes the read path: the handler passes the stored status
    code to [WriteHeader] and changes nothing in the process state. The
    response has the stored code as its status, and an empty body, when
    the code lies between 200 and 999; only a [POST] changes the stored
    code. *)
Theorem health_read_only (req : Request) (σ : World) :
  Method req ≠ MethodPost →
  mutexHealthState σ = unlocked →
  serveHealth req σ
  = (σ, respond (WriteHeader (StatusCode (currentHealthState σ)) newResponse))
  ∧ (finalStatus (StatusCode (currentHealthState σ)) →
     ∃ w, (serveHealth req σ).2 = Ok w
          ∧ status w = StatusCode (currentHealthState σ)
          ∧ written w = []).
Proof.
  intros Hm Hmu. unfold serveHealth. rewrite healthHandler_read by done.
  split; [done|]. intros Hfinal. rewrite WriteHeader_final by done.
  by eexists.
Qed.

End Health.

Section HealthExamples.
Import Go strconv http sync App Client.

Lemma health_post_malformed_witness :
  let req := request "POST" "/health" "abc" in
  Method req = MethodPost
  ∧ Decode (Body req) 0
    = inl "invalid character 'a' looking for beginning of value"%string
  ∧ ∃ w, serveHealth req initial = (initial, Ok w)
         ∧ status w = StatusBadRequest
         ∧ written w
           = list_byte_of_string
               ("invalid character 'a' looking for beginning of value" +:+ LF)
         ∧ ∀ next : Request,
             serveHealth next (serveHealth req initial).1
             = serveHealth next initial.
Proof.
  intros req. split; [done|]. split; [done|].
  exact (health_post_malformed req initial _ eq_refl eq_refl).
Defined.

(** [POST /health] with body [null], which is the decimal text of no
    integer: the decoder accepts it and leaves the variable at 0, the
    answer is 200 and not 400, and the stored code goes from 200 to 0. *)
Lemma health_post_malformed_counterexample :
  let req := request "POST" "/health" "null" in
  let σ := (serveHealth req initial).1 in
  (∀ c : Z, Body req ≠ FormatInt c)
  ∧ Decode (Body req) 0 = inr 0
  ∧ (∃ w, (serveHealth req initial).2 = Ok w ∧ status w = StatusOK)
  ∧ (¬ ∃ w, (serveHealth req initial).2 = Ok w ∧ status w = StatusBadRequest)
  ∧ StatusCode (currentHealthState initial) = 200
  ∧ StatusCode (currentHealthState σ) = 0.
Proof.
  intros req σ. split.
  { intros c Hc. destruct (FormatInt_head c) as (a & rest & Heq & Ha).
    rewrite Heq in Hc. injection Hc as <- _.
    by destruct Ha as [?|[? ?]]. }
  split; [done|].
  assert (Hw : (serveHealth req initial).2
               = Ok {| Header := ∅; wroteHeader := true; status := StatusOK;
                       informational := []; written := [] |})
    by (by vm_compute).
  split; [by eexists|]. split; [|by vm_compute].
  intros (w & Hw' & Hst). rewrite Hw in Hw'. by simplify_eq.
Qed.

(** A number followed by other bytes is accepted as well: the decoder
    reads the number and leaves the rest of the body unread. *)
Lemma health_post_trailing :
  let req := request "POST" "/health" "503abc" in
  Decode (Body req) 0 = inr 503
  ∧ StatusCode (currentHealthState (serveHealth req initial).1) = 503.
Proof. by vm_compute. Qed.

(** Bodies the decoder refuses, with the text of the error. *)
Lemma decode_refused :
  Decode "" 0 = inl "EOF"%string
  ∧ Decode "12.5" 0
    = inl "json: cannot unmarshal number 12.5 into Go value of type int"%string
  ∧ Decode "true" 0
    = inl "json: cannot unmarshal bool into Go value of type int"%string
  ∧ Decode "-" 0 = inl "unexpected EOF"%string
  ∧ Decode "nil" 0
    = inl "invalid character 'i' in literal null (expecting 'u')"%string
  ∧ Decode "9223372036854775808" 0
    = inl ("json: cannot unmarshal number 9223372036854775808"
           +:+ " into Go value of type int")%string.
Proof. repeat split; by vm_compute. Qed.

(** [POST /health] with body [503], then [GET /health]. *)
Lemma health_post_get_witness :
  let post := request "POST" "/health" "503" in
  let get := request "GET" "/health" "" in
  let σ' := (serveHealth post initial).1 in
  inInt64 503 ∧ finalStatus 503
  ∧ (∃ w, (serveHealth post initial).2 = Ok w
          ∧ status w = StatusOK ∧ written w = [])
  ∧ StatusCode (currentHealthState σ') = 503
  ∧ ∃ w, serveHealth get σ' = (σ', Ok w)
         ∧ status w = 503 ∧ written w = [] ∧ informational w = [].
Proof.
  intros post get σ'.
  assert (Hr : inInt64 503) by (by vm_compute).
  assert (Hf : finalStatus 503) by (unfold finalStatus; lia).
  destruct (health_post_get 503 post get initial Hr eq_refl eq_refl eq_refl eq_refl)
    as (Hpost & Hcode & _ & Hget & _).
  split; [done|]. split; [done|]. split; [done|]. split; [done|].
  by apply Hget.
Defined.

(** [POST /health] with body [0] is accepted; the [GET /health] that
    follows panics in [WriteHeader] and no response is sent. *)
Lemma health_post_get_counterexample :
  let post := request "POST" "/health" (FormatInt 0) in
  let get := request "GET" "/health" "" in
  (serveHealth get (serveHealth post initial).1).2
  = Panic "invalid WriteHeader code 0"
  ∧ ¬ ∃ w, (serveHealth get (serveHealth post initial).1).2 = Ok w
           ∧ status w = 0 ∧ written w = [].
Proof.
  intros post get.
  assert (Hp : (serveHealth get (serveHealth post initial).1).2
               = Panic "invalid WriteHeader code 0") by (by vm_compute).
  split; [done|]. intros (w & Hw & _). congruence.
Qed.

Lemma health_read_only_witness :
  let req := request "HEAD" "/health" "" in
  Method req ≠ MethodPost
  ∧ mutexHealthState initial = unlocked
  ∧ finalStatus (StatusCode (currentHealthState initial))
  ∧ serveHealth req initial
    = (initial,
       respond (WriteHeader (StatusCode (currentHealthState initial))
                            newResponse))
  ∧ ∃ w, (serveHealth req initial).2 = Ok w
         ∧ status w = StatusCode (currentHealthState initial)
         ∧ written w = [].
Proof.
  intros req.
  assert (Hm : Method req ≠ MethodPost) by done.
  assert (Hf : finalStatus (StatusCode (currentHealthState initial)))
    by (by vm_compute).
  destruct (health_read_only req initial Hm eq_refl) as [Hs Hw].
  split; [done|]. split; [done|]. split; [done|]. split; [done|].
  by apply Hw.
Defined.

(** After [POST /health] with body [1000] the stored code is 1000; a
    [GET /health] then panics in [WriteHeader] and no response with
    status 1000 is sent. *)
Lemma health_read_only_counterexample :
  let σ := (serveHealth (request "POST" "/health" "1000") initial).1 in
  let req := request "GET" "/health" "" in
  Method req ≠ MethodPost
  ∧ StatusCode (currentHealthState σ) = 1000
  ∧ ¬ ∃ w, (serveHealth req σ).2 = Ok w
           ∧ status w = StatusCode (currentHealthState σ).
Proof.
  intros σ req. split; [done|]. split; [by vm_compute|].
  intros (w & Hw & _). by vm_compute in Hw.
Qed.

End HealthExamples.

(** * The router and the identity report *)

Section Router.
Import Go strings http App.

Lemma lastByte_app_slash (p : string) : lastByte (p +:+ "/") = Some "/"%char.
Proof.
  induction p as [|c p IH]; [done|].
  change (lastByte (String c p +:+ "/"))
    with (match lastByte (p +:+ "/") with Some d => Some d | None => Some c end).
  by rewrite IH.
Qed.

Lemma HasPrefix_slash (x : string) : HasPrefix (String "/" x) "/" = true.
Proof.
  unfold HasPrefix. cbn [String.prefix].
  destruct (ascii_dec "/" "/"); [by destruct x|done].
Qed.

Lemma cleanPath_rooted (p : string) : HasPrefix (cleanPath p) "/" = true.
Proof.
  unfold cleanPath, Clean. case_bool_decide; [done|].
  destruct (_ && _); apply HasPrefix_slash.
Qed.

Lemma mux_patterns :
  m DefaultServeMux
  = <["/health"%string := healthHandler_]>
      (<["/api"%string := apiHandler_]>
        (<["/"%string := whoamiHandler_]>
          (<["/bench"%string := benchHandler_]>
            (<["/echo"%string := echoHandler_]>
              (<["/data"%string := dataHandler_]> ∅))))).
Proof. reflexivity. Qed.

Lemma mux_subtrees : es DefaultServeMux = [("/"%string, whoamiHandler_)].
Proof. reflexivity. Qed.

(** A path that is none of the exact patterns has no entry of its own,
    unless it is the root. *)
Lemma mux_lookup_other (p : string) :
  p ∉ ["/data"; "/echo"; "/bench"; "/api"; "/health"]%string →
  m DefaultServeMux !! p
  = if bool_decide (p = "/"%string) then Some whoamiHandler_ else None.
Proof.
  rewrite !not_elem_of_cons. intros (? & ? & ? & ? & ? & _).
  rewrite mux_patterns. rewrite !lookup_insert_ne by done.
  case_bool_decide as Hp.
  - subst p. by rewrite lookup_insert_eq.
  - rewrite lookup_insert_ne by done. rewrite !lookup_insert_ne by done.
    by rewrite lookup_empty.
Qed.

Lemma mux_no_slash_redirect (p : string) :
  p ≠ ""%string → m DefaultServeMux !! (p +:+ "/")%string = None.
Proof.
  intros Hp. pose proof (lastByte_app_slash p) as Hlast.
  assert (Hne : ∀ q, lastByte q ≠ Some "/"%char → (p +:+ "/")%string ≠ q)
    by (intros q Hq <-; done).
  rewrite mux_patterns.
  rewrite !lookup_insert_ne; [by rewrite lookup_empty|..];
    try (intros Heq; symmetry in Heq; revert Heq; by apply Hne).
  intros Heq. destruct p; [done|]. cbn in Heq. injection Heq as _ Heq.
  by destruct p.
Qed.

Lemma match_other (p : string) :
  HasPrefix p "/" = true →
  p ∉ ["/data"; "/echo"; "/bench"; "/api"; "/health"]%string →
  match_ DefaultServeMux p = Some whoamiHandler_.
Proof.
  intros Hroot Hp. unfold match_. rewrite (mux_lookup_other p Hp).
  case_bool_decide; [done|].
  rewrite mux_subtrees. cbn [List.find fst]. by rewrite Hroot.
Qed.

(** The handler for a request in canonical form to an unregistered
    path. *)
Lemma route_other (r : Request) :
  Method r ≠ "CONNECT"%string →
  cleanPath (Path r) = Path r →
  Path r ∉ ["/data"; "/echo"; "/bench"; "/api"; "/health"]%string →
  route r = Registered whoamiHandler_.
Proof.
  intros Hm Hclean Hp.
  pose proof (cleanPath_rooted (Path r)) as Hroot. rewrite Hclean in Hroot.
  unfold route, dispatch.
  rewrite bool_decide_eq_false_2 by (by intros Heq; rewrite Heq in Hroot).
  rewrite bool_decide_eq_false_2 by done.
  rewrite Hclean.
  assert (Hnr : shouldRedirect DefaultServeMux (Path r) = false).
  { unfold shouldRedirect. rewrite (mux_lookup_other _ Hp).
    case_bool_decide; [done|].
    case_bool_decide as He; [done|].
    rewrite mux_no_slash_redirect by done.
    apply bool_decide_eq_false_2. by intros [? ?]. }
  rewrite Hnr, bool_decide_eq_true_2 by done. cbn [negb].
  unfold handler. by rewrite match_other.
Qed.

(** A path that is not in canonical form is redirected to it. *)
Lemma route_redirect (r : Request) :
  Method r ≠ "CONNECT"%string →
  Path r ≠ "*"%string →
  cleanPath (Path r) ≠ Path r →
  route r = RedirectHandler (cleanPath (Path r)) StatusMovedPermanently.
Proof.
  intros Hm Hstar Hclean.
  pose proof (cleanPath_rooted (Path r)) as Hroot.
  unfold route, dispatch.
  rewrite !bool_decide_eq_false_2 by done.
  assert (Hnr : shouldRedirect DefaultServeMux (cleanPath (Path r)) = false).
  { unfold shouldRedirect. destruct (m DefaultServeMux !! _); [done|].
    case_bool_decide as He; [done|].
    rewrite mux_no_slash_redirect by done.
    apply bool_decide_eq_false_2. by intros [? ?]. }
  by rewrite Hnr.
Qed.

Context `{Library}.

Lemma Write_open (p : list byte) (w : ResponseWriter) :
  open w →
  ∃ w', Write p w = Ok w' ∧ wroteHeader w' = true ∧ status w' = StatusOK
        ∧ written w' = written w ++ p.
Proof.
  unfold open, Write. intros Hw.
  destruct (wroteHeader w) eqn:Hwrote.
  - cbn [mbind result_bind]. rewrite Hw by done.
    eexists. split; [reflexivity|]. done.
  - unfold WriteHeader. rewrite Hwrote.
    eexists. split; [reflexivity|]. done.
Qed.

Lemma Fprintln_open (l : string) (w : ResponseWriter) :
  open w →
  ∃ w', Fprintln l w = Ok w' ∧ wroteHeader w' = true ∧ status w' = StatusOK
        ∧ written w' = written w ++ IdentitySpec.text [l].
Proof.
  intros Hw. unfold Fprintln, IdentitySpec.text. cbn [fmap list_fmap concat].
  rewrite app_nil_r. by apply Write_open.
Qed.

Lemma Error_open (e : string) (code : Z) (w : ResponseWriter) :
  wroteHeader w = true → status w = StatusOK →
  ∃ w', http.Error w e code = Ok w' ∧ wroteHeader w' = true
        ∧ status w' = StatusOK
        ∧ written w' = written w ++ IdentitySpec.text [e].
Proof.
  destruct w as [h wrote st info body]. cbn. intros -> ->.
  eexists. split; [reflexivity|]. cbn. by rewrite app_nil_r.
Qed.

Lemma text_app (ls1 ls2 : list string) :
  IdentitySpec.text (ls1 ++ ls2) = IdentitySpec.text ls1 ++ IdentitySpec.text ls2.
Proof. unfold IdentitySpec.text. by rewrite fmap_app, concat_app. Qed.

Lemma printAddrs_open (addrs : list Addr) :
  ∀ w, wroteHeader w = true → status w = StatusOK →
    ∃ w', printAddrs addrs w = Ok w' ∧ wroteHeader w' = true
          ∧ status w' = StatusOK
          ∧ written w' = written w ++ IdentitySpec.text (ipLine <$> addrs).
Proof.
  induction addrs as [|a addrs IH]; intros w Hwrote Hst.
  - exists w. by rewrite app_nil_r.
  - cbn [printAddrs].
    destruct (Fprintln_open (ipLine a) w) as (w1 & -> & Hw1 & Hs1 & Hb1);
      [by intros _|].
    cbn [mbind result_bind].
    destruct (IH w1 Hw1 Hs1) as (w2 & -> & Hw2 & Hs2 & Hb2).
    exists w2. split; [done|]. split; [done|]. split; [done|].
    rewrite Hb2, Hb1, <- app_assoc. f_equal.
    by rewrite <- text_app.
Qed.

Lemma printIfaces_open (ifs : list (list Addr)) :
  ∀ w, wroteHeader w = true → status w = StatusOK →
    ∃ w', printIfaces ifs w = Ok w' ∧ wroteHeader w' = true
          ∧ status w' = StatusOK
          ∧ written w' = written w ++ IdentitySpec.text (ipLine <$> concat ifs).
Proof.
  induction ifs as [|addrs ifs IH]; intros w Hwrote Hst.
  - exists w. by rewrite app_nil_r.
  - cbn [printIfaces].
    destruct (printAddrs_open addrs w) as (w1 & -> & Hw1 & Hs1 & Hb1);
      [done..|].
    cbn [mbind result_bind].
    destruct (IH w1 Hw1 Hs1) as (w2 & -> & Hw2 & Hs2 & Hb2).
    exists w2. split; [done|]. split; [done|]. split; [done|].
    rewrite Hb2, Hb1, <- app_assoc. f_equal.
    cbn [concat]. by rewrite fmap_app, text_app.
Qed.

(** The answer of the identity handler: status 200, the report, then the
    request as [req.Write] renders it, then the text of its error if it
    failed. *)
Lemma serveWhoami_report (env : Env) (r : Request) :
  ∃ w, serveWhoami env r = Ok w
       ∧ status w = StatusOK
       ∧ written w
         = IdentitySpec.report env r ++ (RequestWrite r).1
           ++ match (RequestWrite r).2 with
              | Some e => IdentitySpec.text [e]
              | None => []
              end.
Proof.
  unfold serveWhoami, respond, whoamiHandler, IdentitySpec.report,
    IdentitySpec.lines.
  assert (∃ w0, (if bool_decide (name env = ""%string) then Ok newResponse
                 else Fprintln ("Name: " +:+ name env) newResponse) = Ok w0
                ∧ open w0
                ∧ written w0
                  = IdentitySpec.text
                      (if bool_decide (name env = ""%string) then []
                       else ["Name: " +:+ name env]))
    as (w0 & -> & Hopen & Hb0).
  { case_bool_decide.
    - exists newResponse. split; [done|]. split; [by intros ?|done].
    - destruct (Fprintln_open ("Name: " +:+ name env) newResponse)
        as (w0 & Hw0 & Hwr & Hst & Hb); [by intros ?|].
      exists w0. split; [done|]. split; [by intros _|]. by rewrite Hb. }
  cbn [mbind result_bind].
  destruct (Fprintln_open ("Hostname: " +:+ hostname env) w0 Hopen)
    as (w1 & -> & Hw1 & Hs1 & Hb1).
  cbn [mbind result_bind].
  destruct (printIfaces_open (ifaces env) w1 Hw1 Hs1)
    as (w2 & -> & Hw2 & Hs2 & Hb2).
  cbn [mbind result_bind].
  destruct (Fprintln_open ("RemoteAddr: " +:+ RemoteAddr r) w2)
    as (w3 & -> & Hw3 & Hs3 & Hb3); [by intros _|].
  cbn [mbind result_bind].
  assert (Hrep : written w3
                 = IdentitySpec.text
                     ((if bool_decide (name env = ""%string) then []
                       else ["Name: " +:+ name env])
                      ++ ["Hostname: " +:+ hostname env]
                      ++ (ipLine <$> concat (ifaces env))
                      ++ ["RemoteAddr: " +:+ RemoteAddr r])).
  { rewrite Hb3, Hb2, Hb1, Hb0, !text_app. by rewrite <- !app_assoc. }
  destruct (RequestWrite r) as [wire err]. cbn [fst snd].
  assert (∃ w4, ioCopy w3 wire = Ok w4 ∧ wroteHeader w4 = true
                ∧ status w4 = StatusOK ∧ written w4 = written w3 ++ wire)
    as (w4 & -> & Hw4 & Hs4 & Hb4).
  { destruct wire as [|c wire].
    - exists w3. by rewrite app_nil_r.
    - apply Write_open. by intros _. }
  cbn [mbind result_bind].
  destruct err as [e|].
  - destruct (Error_open e StatusInternalServerError w4 Hw4 Hs4)
      as (w5 & -> & Hw5 & Hs5 & Hb5).
    cbn [mbind result_bind]. unfold finish. rewrite Hw5.
    exists w5. split; [done|]. split; [done|].
    by rewrite Hb5, Hb4, Hrep, <- !app_assoc.
  - cbn [mbind result_bind]. unfold finish. rewrite Hw4.
    exists w4. split; [done|]. split; [done|].
    by rewrite Hb4, Hrep, app_nil_r.
Qed.

(** A [CONNECT] request is matched as it is: an unregistered path under
    the root reaches the identity handler. *)
Lemma route_connect_rooted (r : Request) :
  Method r = "CONNECT"%string →
  HasPrefix (Path r) "/" = true →
  Path r ∉ RouteSpec.registered →
  route r = Registered whoamiHandler_.
Proof.
  intros Hm Hroot Hp. unfold route, dispatch.
  rewrite bool_decide_eq_false_2 by (by intros Heq; rewrite Heq in Hroot).
  rewrite bool_decide_eq_true_2 by done.
  assert (Hnr : shouldRedirect DefaultServeMux (Path r) = false).
  { unfold shouldRedirect. rewrite (mux_lookup_other _ Hp).
    case_bool_decide; [done|].
    case_bool_decide as He; [done|].
    rewrite mux_no_slash_redirect by done.
    apply bool_decide_eq_false_2. by intros [? ?]. }
  rewrite Hnr. unfold handler. by rewrite match_other.
Qed.

(** A [CONNECT] request whose path does not start with a slash reaches
    no handler. *)
Lemma route_connect_unrooted (r : Request) :
  Method r = "CONNECT"%string →
  HasPrefix (Path r) "/" = false →
  Path r ∉ RouteSpec.registered →
  route r = BadRequestHandler ∨ route r = NotFoundHandler.
Proof.
  intros Hm Hroot Hp. unfold route, dispatch.
  case_bool_decide as Hstar; [by left|right].
  rewrite bool_decide_eq_true_2 by done.
  assert (Hroot' : Path r ≠ "/"%string)
    by (by intros Heq; rewrite Heq in Hroot).
  assert (Hnone : m DefaultServeMux !! Path r = None).
  { rewrite (mux_lookup_other _ Hp). by rewrite bool_decide_eq_false_2. }
  assert (Hnr : shouldRedirect DefaultServeMux (Path r) = false).
  { unfold shouldRedirect. rewrite Hnone.
    case_bool_decide as He; [done|].
    rewrite mux_no_slash_redirect by done.
    apply bool_decide_eq_false_2. by intros [? ?]. }
  rewrite Hnr. unfold handler, match_. rewrite Hnone, mux_subtrees.
  cbn [List.find fst]. by rewrite Hroot.
Qed.

(** ** C8, as amended. Of the requests whose path is none of [/data],
    [/echo], [/bench], [/api] and [/health], those whose path is in
    canonical form, and no others, are handled by [whoamiHandler]: such a
    request is not answered with 404 but with status 200 and the text
    identity report. (The multiplexer answers a path that is not in
    canonical form with a redirect to the canonical path; it does not
    clean the path of a [CONNECT] request, which only has to start with a
    slash.) *)
Theorem route_fallback (env : Env) (r : Request) :
  Path r ∉ ["/data"; "/echo"; "/bench"; "/api"; "/health"]%string →
  (route r = Registered whoamiHandler_ ↔ RouteSpec.canonical r)
  ∧ (cleanPath (Path r) = Path r → RouteSpec.canonical r)
  ∧ (RouteSpec.canonical r →
     ∃ w, serveWhoami env r = Ok w
          ∧ status w = StatusOK
          ∧ IdentitySpec.report env r `prefix_of` written w).
Proof.
  intros Hp. split; [|split].
  - unfold RouteSpec.canonical. case_bool_decide as Hm.
    + destruct (HasPrefix (Path r) "/") eqn:Hroot.
      * split; [done|]. intros _. by apply route_connect_rooted.
      * split; [|done]. intros Hr.
        by destruct (route_connect_unrooted r Hm Hroot Hp) as [Hb|Hb];
          rewrite Hb in Hr.
    + split.
      * intros Hr. destruct (decide (cleanPath (Path r) = Path r)) as [|Hc];
          [done|].
        destruct (decide (Path r = "*"%string)) as [Hstar|Hstar].
        { unfold route, dispatch in Hr.
          by rewrite bool_decide_eq_true_2 in Hr. }
        by rewrite (route_redirect r Hm Hstar Hc) in Hr.
      * intros Hc. by apply route_other.
  - intros Hc. unfold RouteSpec.canonical. case_bool_decide; [|done].
    rewrite <- Hc. apply cleanPath_rooted.
  - intros _. destruct (serveWhoami_report env r) as (w & Hw & Hst & Hb).
    exists w. split; [done|]. split; [done|].
    rewrite Hb. by eexists.
Qed.

End Router.

Section RouterExamples.
Import Go strings http App Client.

Lemma route_fallback_witness :
  let r := request "CONNECT" "/anything/else" "" in
  (Path r ∉ ["/data"; "/echo"; "/bench"; "/api"; "/health"]%string)
  ∧ cleanPath (Path r) = Path r
  ∧ route r = Registered whoamiHandler_
  ∧ ∃ w, serveWhoami someEnv r = Ok w
         ∧ status w = StatusOK
         ∧ IdentitySpec.report someEnv r `prefix_of` written w.
Proof.
  intros r.
  assert (Hc : cleanPath (Path r) = Path r) by done.
  assert (Hp : Path r ∉ ["/data"; "/echo"; "/bench"; "/api"; "/health"]%string).
  { rewrite !not_elem_of_cons. repeat (split; [done|]). apply not_elem_of_nil. }
  destruct (route_fallback someEnv r Hp) as (Hroute & Hcanon & Hserve).
  split; [done|]. split; [done|]. split; [by apply Hroute, Hcanon|].
  by apply Hserve, Hcanon.
Defined.

(** The report for [someEnv]. *)
Lemma report_example :
  string_of_list_byte (IdentitySpec.report someEnv (request "GET" "/x" ""))
  = "Name: foo
Hostname: host-1
IP: 127.0.0.1
IP: ::1
IP: <nil>
RemoteAddr: 192.0.2.7:40000
"%string.
Proof. reflexivity. Qed.

(** [GET //whoami] is none of the registered paths, and is answered with
    a redirect to [/whoami], not by the identity handler. *)
Lemma route_fallback_counterexample :
  let r := request "GET" "//whoami" "" in
  (Path r ∉ ["/data"; "/echo"; "/bench"; "/api"; "/health"]%string)
  ∧ (∃ code, route r = RedirectHandler "/whoami" code)
  ∧ route r ≠ Registered whoamiHandler_.
Proof.
  intros r. split.
  { rewrite !not_elem_of_cons. repeat (split; [done|]). apply not_elem_of_nil. }
  assert (Hr : route r = RedirectHandler "/whoami" StatusMovedPermanently)
    by (by vm_compute).
  split; [by eexists|]. by rewrite Hr.
Qed.

(** A [CONNECT] request is not redirected: its path is matched as it
    is. *)
Lemma route_connect_as_is :
  route (request "CONNECT" "//whoami" "") = Registered whoamiHandler_.
Proof. by vm_compute. Qed.

(** A [CONNECT] request has an empty path, which no pattern matches. *)
Lemma route_connect :
  route (request "CONNECT" "" "") = NotFoundHandler.
Proof. by vm_compute. Qed.

(** The registered paths reach their handlers. *)
Lemma route_registered :
  route (request "GET" "/data" "") = Registered dataHandler_
  ∧ route (request "GET" "/echo" "") = Registered echoHandler_
  ∧ route (request "GET" "/bench" "") = Registered benchHandler_
  ∧ route (request "GET" "/api" "") = Registered apiHandler_
  ∧ route (request "POST" "/health" "503") = Registered healthHandler_
  ∧ route (request "GET" "/" "") = Registered whoamiHandler_
  ∧ route (request "GET" "/data/x" "") = Registered whoamiHandler_.
Proof. repeat split; by vm_compute. Qed.

End RouterExamples.

(** * The echo loop *)

Section Echo.
Import Go App EchoSpec.

(** The loop writes back a prefix of the frames received, in order, and
    stops at the first error. *)
Lemma echoLoop_prefix (incoming : list Incoming) (writable : nat → bool) :
  ∀ (sent : list Message) (σ : World),
    ∃ (k : nat) (σ' : World) (ended : result unit),
      echoLoop incoming writable sent σ
      = (σ', sent ++ take k (received incoming), ended)
      ∧ (k ≤ length (received incoming))%nat
      ∧ (∀ i, (i < k)%nat → writable (length sent + i)%nat = true)
      ∧ ((k < length (received incoming))%nat
           ∧ writable (length sent + k)%nat = false ∧ ended = Ok ()
         ∨ k = length (received incoming)
           ∧ (length (received incoming) < length incoming)%nat
           ∧ ended = Ok ()
         ∨ k = length (received incoming)
           ∧ length (received incoming) = length incoming
           ∧ ended = Blocked).
Proof.
  induction incoming as [|[msg|err] incoming IH]; intros sent σ.
  - exists 0%nat, σ, Blocked. cbn. rewrite app_nil_r.
    split; [done|]. split; [done|]. split; [intros; lia|]. by right; right.
  - cbn [echoLoop received length].
    destruct (writable (length sent)) eqn:Hw.
    + destruct (IH (sent ++ [msg]) (printBinary (payload msg) σ))
        as (k & σ' & ended & -> & Hk & Hall & Hend).
      exists (S k), σ', ended. rewrite length_app in Hall, Hend. cbn in Hall, Hend.
      split; [by rewrite <- app_assoc|]. split; [lia|]. split.
      * intros [|i] Hi; [by rewrite Nat.add_0_r|].
        specialize (Hall i). rewrite <- Hall by lia. f_equal. lia.
      * replace (length sent + S k)%nat with (length sent + 1 + k)%nat by lia.
        destruct Hend as [(?&?&?)|[(?&?&?)|(?&?&?)]];
          [left|right; left|right; right]; repeat split; first [done|lia].
    + exists 0%nat, (printBinary (payload msg) σ), (Ok ()).
      cbn [take]. rewrite app_nil_r, Nat.add_0_r.
      split; [done|]. split; [lia|]. split; [intros; lia|].
      left. split; [lia|done].
  - exists 0%nat, σ, (Ok ()). cbn. rewrite app_nil_r.
    split; [done|]. split; [done|]. split; [intros; lia|].
    right; left. split; [done|]. split; [lia|done].
Qed.

(** ** C6. On an open connection the handler writes back the frames it
    receives, each with the payload and the type it came with, in the
    order of arrival and one for one, up to the first error: a failed
    write or a failed read ends the loop and the handler returns; while
    there is no error it goes on waiting for the next frame. *)
Theorem echo_in_order (conn : Conn) (σ : World) :
  ∃ (k : nat) (σ' : World) (ended : result unit),
    echoHandler (inr conn) σ
    = (σ', sent conn ++ take k (received (incoming conn)), ended)
    ∧ (∀ i, (i < k)%nat → writable conn (length (sent conn) + i)%nat = true)
    ∧ ((k < length (received (incoming conn)))%nat
         ∧ writable conn (length (sent conn) + k)%nat = false
         ∧ ended = Ok ()
       ∨ k = length (received (incoming conn))
         ∧ (length (received (incoming conn)) < length (incoming conn))%nat
         ∧ ended = Ok ()
       ∨ k = length (received (incoming conn))
         ∧ incoming conn = Frame <$> received (incoming conn)
         ∧ ended = Blocked).
Proof.
  destruct (echoLoop_prefix (incoming conn) (writable conn) (sent conn) σ)
    as (k & σ' & ended & Hrun & Hk & Hall & Hend).
  exists k, σ', ended. split; [done|]. split; [done|].
  destruct Hend as [?|[?|(?&Hlen&?)]]; [by left|by right; left|].
  right; right. split; [done|]. split; [|done].
  clear -Hlen. induction (incoming conn) as [|[msg|err] l IH]; cbn in *.
  - done.
  - f_equal. apply IH. lia.
  - lia.
Qed.

(** Three frames, the second write fails: one frame is echoed. *)
Lemma echo_example :
  let frames := [ {| messageType := 1; payload := ["h"; "i"]%byte |};
                  {| messageType := 2; payload := [x00; xff] |};
                  {| messageType := 1; payload := [] |} ] in
  (echoHandler (inr {| incoming := Frame <$> frames;
                       writable := fun k => bool_decide (k ≠ 1%nat);
                       sent := [] |}) initial).1.2
  = take 1 frames
  ∧ stdout (echoHandler (inr {| incoming := Frame <$> frames;
                                writable := fun _ => true;
                                sent := [] |}) initial).1.1
    = ["Received b:"; "104,"; "105,"; LF;
       "Received b:"; "0,"; "255,"; LF;
       "Received b:"; LF]%string
  ∧ (echoHandler (inr {| incoming := Frame <$> frames;
                         writable := fun _ => true;
                         sent := [] |}) initial).1.2
    = frames.
Proof. by vm_compute. Qed.

End Echo.

(** * Concurrent reads and writes of the health state *)

Section Interleavings.
Import Go sync Concurrent.

Implicit Types (f : goroutine → nat) (gs : list goroutine) (g : goroutine).

Lemma total_app f gs1 gs2 : total f (gs1 ++ gs2) = (total f gs1 + total f gs2)%nat.
Proof. apply sum_list_with_app. Qed.

Lemma total_cons f g gs : total f (g :: gs) = (f g + total f gs)%nat.
Proof. reflexivity. Qed.

Lemma total_insert f gs : ∀ i g g',
  gs !! i = Some g →
  (total f (<[i := g']> gs) + f g = total f gs + f g')%nat.
Proof.
  induction gs as [|a gs IH]; intros [|i] g g' Hi; try done.
  - change (<[0%nat := g']> (a :: gs)) with (g' :: gs).
    rewrite !total_cons. cbn in Hi. simplify_eq. lia.
  - change (<[S i := g']> (a :: gs)) with (a :: <[i := g']> gs).
    rewrite !total_cons. specialize (IH i g g' Hi). lia.
Qed.

Lemma total_lookup f gs : ∀ i g, gs !! i = Some g → (f g ≤ total f gs)%nat.
Proof.
  induction gs as [|a gs IH]; intros [|i] g Hi; try done; rewrite total_cons.
  - cbn in Hi. simplify_eq. lia.
  - specialize (IH i g Hi). lia.
Qed.

Lemma total_pair f gs : ∀ i j g1 g2,
  i ≠ j → gs !! i = Some g1 → gs !! j = Some g2 →
  (f g1 + f g2 ≤ total f gs)%nat.
Proof.
  induction gs as [|a gs IH]; intros [|i] [|j] g1 g2 Hij Hi Hj; try done;
    cbn in Hi, Hj; simplify_eq; rewrite total_cons.
  - pose proof (total_lookup f gs j g2 Hj). lia.
  - pose proof (total_lookup f gs i g1 Hi). lia.
  - assert (i ≠ j) by lia. specialize (IH i j g1 g2 ltac:(done) Hi Hj). lia.
Qed.

Lemma total_split gs : total writing gs
  = (total storing gs + total (fun g => writing g - storing g)%nat gs)%nat.
Proof.
  induction gs as [|a gs IH]; [done|].
  rewrite !total_cons, IH. destruct a; cbn; lia.
Qed.

Lemma written_insert gs i g g' v :
  gs !! i = Some g →
  completed g = None ∨ completed g' = completed g →
  written gs v → written (<[i := g']> gs) v.
Proof.
  intros Hi Hc (j & gj & Hj & Hv).
  destruct (decide (i = j)) as [->|Hne].
  - exists j, g'. rewrite list_lookup_insert_eq by (by eapply lookup_lt_Some).
    split; [done|]. simplify_eq. destruct Hc; congruence.
  - exists j, gj. by rewrite list_lookup_insert_ne.
Qed.

Lemma written_app gs g v : written gs v → written (gs ++ [g]) v.
Proof.
  intros (j & gj & Hj & Hv). exists j, gj. split; [|done].
  by apply lookup_app_l_Some.
Qed.

Lemma invariant_initial : invariant initial.
Proof. split; try done. intros v [= <-]. by left. Qed.

Lemma invariant_arrive (g : goroutine) (s : state) :
  writing g = 0%nat → reading g = 0%nat → observed g = None →
  invariant s → invariant (arrive g s).
Proof.
  intros Hw Hr Ho [Hex Hrd Hwr Hst Hcell Hseen].
  assert (Hs : storing g = 0%nat) by (destruct g; done).
  split; cbn [arrive mutexHealthState StatusCode goroutines];
    rewrite ?total_app, ?total_cons; change (total _ []) with 0%nat;
    try lia; try done.
  - intros v Hv. destruct (Hcell v Hv) as [?|?]; [by left|].
    right. by apply written_app.
  - intros i gi seen Hi Hobs.
    apply lookup_app_Some in Hi as [Hi|[_ Hi]].
    + destruct (Hseen i gi seen Hi Hobs) as (v & -> & Hv).
      exists v. split; [done|]. destruct Hv; [by left|].
      right. by apply written_app.
    + apply list_lookup_singleton_Some in Hi as [_ <-]. congruence.
Qed.

Lemma Lock_Ok (mu mu' : RWMutex) :
  Lock mu = Ok mu' →
  writer mu = false ∧ readers mu = 0%nat
  ∧ mu' = {| writer := true; readers := 0 |}.
Proof.
  unfold Lock. destruct mu as [[] [|n]]; cbn; intros ?; by simplify_eq.
Qed.

Lemma Unlock_Ok (mu mu' : RWMutex) :
  Unlock mu = Ok mu' →
  writer mu = true ∧ mu' = {| writer := false; readers := readers mu |}.
Proof. unfold Unlock. destruct mu as [[] n]; cbn; intros ?; by simplify_eq. Qed.

Lemma RLock_Ok (mu mu' : RWMutex) :
  RLock mu = Ok mu' →
  writer mu = false ∧ mu' = {| writer := false; readers := S (readers mu) |}.
Proof. unfold RLock. destruct mu as [[] n]; cbn; intros ?; by simplify_eq. Qed.

Lemma RUnlock_Ok (mu mu' : RWMutex) :
  RUnlock mu = Ok mu' →
  ∃ n, readers mu = S n ∧ mu' = {| writer := writer mu; readers := n |}.
Proof.
  unfold RUnlock. destruct mu as [w [|n]]; cbn; intros ?; simplify_eq.
  by exists n.
Qed.

Lemma legitimate_insert gs i g g' seen :
  gs !! i = Some g →
  completed g = None ∨ completed g' = completed g →
  legitimate gs seen → legitimate (<[i := g']> gs) seen.
Proof.
  intros Hi Hc (v & -> & Hv). exists v. split; [done|].
  destruct Hv; [by left|]. right. by eapply written_insert.
Qed.

(** A step keeps what the goroutines have seen legitimate, provided the
    goroutine that moved saw nothing new or something legitimate. *)
Lemma seen_insert gs i g g' :
  gs !! i = Some g →
  completed g = None ∨ completed g' = completed g →
  (∀ seen, observed g' = Some seen →
           observed g = Some seen ∨ legitimate gs seen) →
  (∀ j gj seen, gs !! j = Some gj → observed gj = Some seen →
                legitimate gs seen) →
  ∀ j gj seen, <[i := g']> gs !! j = Some gj → observed gj = Some seen →
               legitimate (<[i := g']> gs) seen.
Proof.
  intros Hi Hc Hnew Hold j gj seen Hj Hobs.
  apply (legitimate_insert gs i g g'); [done..|].
  destruct (decide (i = j)) as [->|Hne].
  - rewrite list_lookup_insert_eq in Hj by (by eapply lookup_lt_Some).
    simplify_eq. destruct (Hnew seen Hobs) as [Hg|?]; [|done].
    by eapply Hold.
  - rewrite list_lookup_insert_ne in Hj by done. by eapply Hold.
Qed.

(** While a goroutine holds a read lock the cell holds a whole value. *)
Lemma reader_sees_whole (s : state) (i : nat) (g : goroutine) :
  invariant s → goroutines s !! i = Some g → reading g = 1%nat →
  ∃ v, StatusCode s = Whole v.
Proof.
  intros [Hex Hrd Hwr Hst _ _] Hi Hg.
  pose proof (total_lookup reading _ _ _ Hi) as Hle.
  pose proof (total_split (goroutines s)) as Hsplit.
  destruct (writer (mutexHealthState s)); [specialize (Hex eq_refl); lia|].
  destruct (StatusCode s) as [v|old new]; [by exists v|lia].
Qed.

Lemma invariant_advance (s : state) (i : nat) (g g' : goroutine)
    (mu : RWMutex) (c : cell) :
  invariant s →
  goroutines s !! i = Some g →
  advance g (mutexHealthState s) (StatusCode s) = Some (g', mu, c) →
  invariant {| mutexHealthState := mu; StatusCode := c;
               goroutines := <[i := g']> (goroutines s) |}.
Proof.
  intros Hinv Hi Hadv.
  pose proof (reader_sees_whole s i g Hinv Hi) as Hwhole.
  destruct Hinv as [Hex Hrd Hwr Hst Hcell Hseen].
  pose proof (total_insert reading _ i g g' Hi) as Hr'.
  pose proof (total_insert writing _ i g g' Hi) as Hw'.
  pose proof (total_insert storing _ i g g' Hi) as Hs'.
  pose proof (total_lookup writing _ _ _ Hi) as Hwle.
  pose proof (total_lookup storing _ _ _ Hi) as Hsle.
  pose proof (total_lookup (fun g => writing g - storing g)%nat _ _ _ Hi) as Hnle.
  pose proof (total_split (goroutines s)) as Hsplit.
  assert (Hkeep : ∀ v, StatusCode s = Whole v →
                       completed g = None ∨ completed g' = completed g →
                       v = http.StatusOK ∨ written (<[i := g']> (goroutines s)) v).
  { intros v Hv Hc. destruct (Hcell v Hv); [by left|].
    right. by eapply written_insert. }
  destruct g; cbn [advance] in Hadv.
  - (* Lock *)
    destruct (Lock _) as [mu'| |] eqn:Hl; simplify_eq.
    apply Lock_Ok in Hl as (Hw0 & Hr0 & ->). rewrite Hw0 in Hwr.
    split; cbn [mutexHealthState StatusCode goroutines writer readers];
      cbn [reading writing storing] in *; try lia.
    + intros v Hv. apply Hkeep; [done|by left].
    + eapply seen_insert; [done|by left|done|done].
  - (* the assignment begins *)
    assert (∃ old, c = Partial old statusCode ∧ g' = PostStoring statusCode
                   ∧ mu = mutexHealthState s) as (old & -> & -> & ->)
      by (destruct (StatusCode s); simplify_eq; by eexists).
    cbn [reading writing storing Nat.sub] in *.
    split; cbn [mutexHealthState StatusCode goroutines]; try done; try lia.
    + destruct (writer (mutexHealthState s)); lia.
    + eapply seen_insert; [done|by left|done|done].
  - (* the assignment ends *)
    simplify_eq. cbn [reading writing storing] in *.
    split; cbn [mutexHealthState StatusCode goroutines]; try done; try lia.
    + destruct (StatusCode s); lia.
    + intros v [= <-]. right. exists i, (PostStored statusCode).
      split; [|done]. apply list_lookup_insert_eq. by eapply lookup_lt_Some.
    + eapply seen_insert; [done|by left|done|done].
  - (* Unlock *)
    destruct (Unlock _) as [mu'| |] eqn:Hl; simplify_eq.
    apply Unlock_Ok in Hl as (Hw1 & ->). rewrite Hw1 in Hwr.
    cbn [reading writing storing] in *.
    split; cbn [mutexHealthState StatusCode goroutines writer readers];
      try done; try lia.
    + intros v Hv. apply Hkeep; [done|by right].
    + eapply seen_insert; [done|by right|done|done].
  - done.
  - (* RLock *)
    destruct (RLock _) as [mu'| |] eqn:Hl; simplify_eq.
    apply RLock_Ok in Hl as (Hw0 & ->).
    cbn [reading writing storing] in *.
    split; cbn [mutexHealthState StatusCode goroutines writer readers];
      try done; try lia.
    + rewrite Hw0 in Hwr. lia.
    + intros v Hv. apply Hkeep; [done|by left].
    + eapply seen_insert; [done|by left|done|done].
  - (* the read *)
    simplify_eq. destruct (Hwhole eq_refl) as [v Hv].
    cbn [reading writing storing] in *.
    split; cbn [mutexHealthState StatusCode goroutines];
      try done; try lia.
    + intros v' Hv'. apply Hkeep; [done|by left].
    + eapply seen_insert; [done|by left| |done].
      intros seen [= <-]. right. rewrite Hv. exists v. split; [done|].
      by apply Hcell.
  - (* RUnlock *)
    destruct (RUnlock _) as [mu'| |] eqn:Hl; simplify_eq.
    apply RUnlock_Ok in Hl as (n & Hn & ->).
    cbn [reading writing storing] in *.
    split; cbn [mutexHealthState StatusCode goroutines writer readers];
      try done; try lia.
    + intros Hw1. specialize (Hex Hw1). lia.
    + intros v Hv. apply Hkeep; [done|by left].
    + eapply seen_insert; [done|by left| |done].
      intros seen' [= <-]. by left.
  - done.
Qed.

Lemma invariant_exec (e : event) (s : state) :
  invariant s → invariant (exec e s).
Proof.
  intros Hinv. destruct e as [code| |i]; cbn [exec].
  - by apply invariant_arrive.
  - by apply invariant_arrive.
  - destruct (goroutines s !! i) as [g|] eqn:Hi; [|done].
    destruct (advance _ _ _) as [[[g' mu] c]|] eqn:Hadv; [|done].
    by eapply invariant_advance.
Qed.

Lemma invariant_run (events : list event) :
  ∀ s, invariant s → invariant (run events s).
Proof.
  induction events as [|e events IH]; intros s Hinv; [done|].
  apply IH. by apply invariant_exec.
Qed.

(** ** C9. In every interleaving of the goroutines that serve
    [/health], a read of the status code sees a whole value, and that
    value is the initial 200 or the value of a [POST] whose assignment
    has ended; the goroutines between [Lock] and [Unlock] are at most
    one, and none is there while another is between [RLock] and
    [RUnlock]. *)
Theorem health_reads_whole (events : list event) (i : nat) (g : goroutine)
    (seen : option Z) :
  let s := run events initial in
  goroutines s !! i = Some g →
  observed g = Some seen →
  (∃ v, seen = Some v
        ∧ (v = http.StatusOK
           ∨ ∃ j code, goroutines s !! j = Some code
                       ∧ completed code = Some v))
  ∧ (total writing (goroutines s) ≤ 1)%nat
  ∧ (total writing (goroutines s) = 1%nat →
     total reading (goroutines s) = 0%nat).
Proof.
  intros s Hi Hobs.
  pose proof (invariant_run events initial invariant_initial) as Hinv.
  fold s in Hinv. destruct Hinv as [Hex Hrd Hwr Hst Hcell Hseen].
  split; [exact (Hseen i g seen Hi Hobs)|].
  destruct (writer (mutexHealthState s)); split; lia.
Qed.

End Interleavings.

Section InterleavingExamples.
Import Go sync Concurrent.

(** A [POST] of 503 and a [GET] arrive; the [POST] takes the lock, the
    [GET] cannot pass [RLock] until the [POST] has unlocked, and then
    reads 503. *)
Lemma health_reads_whole_witness :
  let events := [Post 503; Get; Run 0; Run 1; Run 0; Run 1; Run 0;
                 Run 0; Run 1; Run 1; Run 1] in
  let s := run events initial in
  goroutines s !! 1%nat = Some (GetReturned (Some 503))
  ∧ observed (GetReturned (Some 503)) = Some (Some 503)
  ∧ (∃ v, Some 503 = Some v
          ∧ (v = http.StatusOK
             ∨ ∃ j code, goroutines s !! j = Some code
                         ∧ completed code = Some v))
  ∧ (total writing (goroutines s) ≤ 1)%nat
  ∧ (total writing (goroutines s) = 1%nat →
     total reading (goroutines s) = 0%nat).
Proof.
  intros events s.
  assert (Hi : goroutines s !! 1%nat = Some (GetReturned (Some 503)))
    by (by vm_compute).
  split; [done|]. split; [done|].
  exact (health_reads_whole events 1 (GetReturned (Some 503)) (Some 503)
           Hi eq_refl).
Defined.

(** In the middle of the assignment the cell holds no whole value, and a
    [GET] that is scheduled then stays before [RLock]. *)
Lemma assignment_in_progress :
  let s := run [Post 503; Get; Run 0; Run 0] initial in
  StatusCode s = Partial 200 503
  ∧ load (StatusCode s) = None
  ∧ goroutines s !! 1%nat = Some GetStarted
  ∧ exec (Run 1) s = s.
Proof. by vm_compute. Qed.

(** Two [POST]s: the second cannot pass [Lock] while the first holds it,
    and the last one to store wins. *)
Lemma writers_take_turns :
  let s := run [Post 500; Post 503; Run 0; Run 1] initial in
  goroutines s = [PostLocked 500; PostDecoded 503]
  ∧ StatusCode (run [Run 0; Run 0; Run 0; Run 1; Run 1; Run 1; Run 1] s)
    = Whole 503.
Proof. by vm_compute. Qed.

End InterleavingExamples.

(** * More about the payload *)

Section Payload.
Import Go App.

#[local] Abbreviation pattern := (list_byte_of_string charset).

(** What an [Ok] of [fillContent] holds. *)
Lemma fillContent_Ok (n : Z) (b : list byte) :
  fillContent n = Ok b →
  0 ≤ n ≤ maxAlloc ∧ Z.of_nat (length b) = n
  ∧ ∀ j : nat,
      (j < length b)%nat →
      b !! j = if decide (j = 0 ∨ j = length b - 1)%nat
               then Some "|"%byte
               else pattern !! (j `mod` 27)%nat.
Proof.
  intros Hb. destruct (decide (0 ≤ n ≤ maxAlloc)) as [Hn|Hn].
  2: { rewrite fillContent_refused in Hb by lia. done. }
  destruct (fillContent_lookup (Z.to_nat n)) as (b' & Hrun & Hl & Hlook);
    [lia|].
  rewrite Z2Nat.id in Hrun by lia.
  assert (b' = b) as -> by congruence.
  split; [done|]. split; [lia|]. by rewrite Hl.
Qed.

Lemma sentinel_not_in_charset (k : nat) : pattern !! k ≠ Some "|"%byte.
Proof.
  intros Hk. apply list_elem_of_lookup_2 in Hk. revert Hk.
  change pattern with (list_byte_of_string "-ABCDEFGHIJKLMNOPQRSTUVWXYZ").
  cbv [list_byte_of_string list_ascii_of_string List.map byte_of_ascii
       Byte.of_bits ascii_of_byte].
  rewrite !elem_of_cons, elem_of_nil. intros Hk.
  repeat (destruct Hk as [Hk|Hk]; [discriminate|]). done.
Qed.

(** ** X1. The two ways [fillContent] ends. For a length from 0 up to
    the allocation limit [maxAlloc] it returns, with as many bytes as
    asked for; for a negative length and for one above the limit it panics
    in the allocation, and for no other reason: no store of the loop and
    neither store of the sentinel falls outside the slice. *)
Theorem fillContent_outcome (n : Z) :
  match fillContent n with
  | Ok b => 0 ≤ n ≤ maxAlloc ∧ Z.of_nat (length b) = n
  | Panic msg =>
      (n < 0 ∨ maxAlloc < n)
      ∧ msg = "runtime error: makeslice: len out of range"%string
  | Blocked => False
  end.
Proof.
  destruct (decide (0 ≤ n ≤ maxAlloc)) as [Hn|Hn].
  - destruct (fillContent_ends n Hn) as (b & -> & Hlen & _). done.
  - rewrite fillContent_refused by lia. split; [lia|done].
Qed.

(** ** X2. The sentinel is not a byte of the character set, so in a
    payload it stands at the first and at the last position and nowhere
    else: a reader finds the two ends of the payload by looking for it. *)
Theorem sentinel_only_at_ends (n : Z) (b : list byte) (i : nat) :
  fillContent n = Ok b →
  (i < length b)%nat →
  b !! i = Some "|"%byte ↔ (i = 0 ∨ i = length b - 1)%nat.
Proof.
  intros Hb Hi. destruct (fillContent_Ok n b Hb) as (_ & _ & Hlook).
  rewrite Hlook by done. case_decide as Hends; [done|].
  split; [|done]. intros Hk. by apply sentinel_not_in_charset in Hk.
Qed.

Lemma sentinel_only_at_ends_witness :
  let b := ["|"; "A"; "B"; "C"; "|"]%byte in
  fillContent 5 = Ok b
  ∧ (2 < length b)%nat
  ∧ (b !! 2%nat = Some "|"%byte ↔ (2 = 0 ∨ 2 = length b - 1)%nat).
Proof.
  intros b. split; [done|]. split; [cbn; lia|].
  apply (sentinel_only_at_ends 5 b 2); [done|cbn; lia].
Defined.

(** ** X3. Between the two sentinels a byte depends on its position
    modulo 27 alone, not on the length asked for: two payloads agree
    wherever both are in their interior, and the interior of a payload
    repeats with period 27. *)
Theorem interior_by_residue (m n : Z) (bm bn : list byte) (i j : nat) :
  fillContent m = Ok bm → fillContent n = Ok bn →
  (0 < i < length bm - 1)%nat → (0 < j < length bn - 1)%nat →
  (i `mod` 27 = j `mod` 27)%nat →
  bm !! i = bn !! j.
Proof.
  intros Hm Hn Hi Hj Hmod.
  destruct (fillContent_Ok m bm Hm) as (_ & _ & Hlm).
  destruct (fillContent_Ok n bn Hn) as (_ & _ & Hln).
  rewrite Hlm, Hln by lia. rewrite !decide_False by lia. by rewrite Hmod.
Qed.

Lemma interior_by_residue_witness :
  let bm := ["|"; "A"; "B"; "|"]%byte in
  ∃ bn, fillContent 4 = Ok bm ∧ fillContent 40 = Ok bn
        ∧ (0 < 2 < length bm - 1)%nat ∧ (0 < 29 < length bn - 1)%nat
        ∧ (2 `mod` 27 = 29 `mod` 27)%nat
        ∧ bm !! 2%nat = bn !! 29%nat.
Proof.
  intros bm. destruct (fillContent 40) as [bn| |] eqn:Hn.
  2, 3: by vm_compute in Hn.
  exists bn.
  assert (Hlen : length bn = 40%nat)
    by (destruct (fillContent_Ok 40 bn Hn) as (_ & ? & _); lia).
  assert (Hm : fillContent 4 = Ok bm) by done.
  assert (Hi : (0 < 2 < length bm - 1)%nat) by (cbn; lia).
  assert (Hj : (0 < 29 < length bn - 1)%nat) by lia.
  split; [done|]. split; [done|]. split; [done|]. split; [done|].
  split; [done|].
  exact (interior_by_residue 4 40 bm bn 2 29 Hm Hn Hi Hj eq_refl).
Defined.

End Payload.

(** * More about the data handler *)

Section DataMore.
Import Go strconv http App.
Context `{Library}.

(** A decimal text beyond the range of [int64] is a range error. *)
Lemma ParseInt_above (n : Z) :
  MaxInt64 < n → ParseInt (FormatInt n) = (MaxInt64, Some ErrRange).
Proof.
  unfold MaxInt64. intros Hn. destruct n as [|p|p]; try lia.
  rewrite FormatInt_pos.
  destruct (to_uint_text p) as (c & rest & d & -> & Hc & _ & Hd).
  rewrite (ParseInt_unsigned c rest d (Z.pos p)) by done.
  destruct (Z.leb_spec (2 ^ 63) (Z.pos p)); [done|lia].
Qed.

Lemma ParseInt_below (n : Z) :
  n < MinInt64 → ParseInt (FormatInt n) = (MinInt64, Some ErrRange).
Proof.
  unfold MinInt64. intros Hn. destruct n as [|p|p]; try lia.
  rewrite FormatInt_neg.
  destruct (to_uint_text p) as (c & rest & d & -> & Hc & _ & Hd).
  rewrite (ParseInt_negative c rest d (Z.pos p)) by done.
  destruct (Z.ltb_spec (2 ^ 63) (Z.pos p)); [done|lia].
Qed.

Lemma maxAlloc_value : maxAlloc = 2 ^ 48.
Proof. reflexivity. Qed.

Lemma multiplier_max (r : Request) : DataSpec.multiplier r ≤ 1024 ^ 4.
Proof. unfold DataSpec.multiplier. repeat case_bool_decide; lia. Qed.

(** The answer to a [GET] whose length [make] accepts. *)
Lemma serveData_length (r : Request) :
  Method r = "GET"%string →
  0 ≤ dataSize r ≤ maxAlloc →
  ∃ w, serveData r = Ok w ∧ status w = StatusOK
       ∧ Z.of_nat (length (written w)) = dataSize r.
Proof.
  intros Hget Hpos.
  destruct (fillContent_ends (dataSize r) Hpos) as (b & Hfill & Hlen & _).
  destruct (serveData_ok r b Hget Hfill) as (w & Hw & Hst & Hb & _).
  exists w. by rewrite Hb.
Qed.

(** The response to a [GET], field by field. *)
Lemma serveData_sent (r : Request) (b : list byte) :
  Method r = "GET"%string →
  fillContent (dataSize r) = Ok b →
  serveData r
  = Ok {| Header := if dataAttachment r
                    then DataSpec.attachment (length b) else ∅;
          wroteHeader := true; status := StatusOK;
          informational := []; written := b |}.
Proof.
  intros Hget Hfill. unfold serveData, respond, dataHandler.
  rewrite Hfill. cbn [mbind result_bind].
  destruct (dataAttachment r).
  - unfold ServeContent. rewrite Hget. reflexivity.
  - by destruct b.
Qed.

(** ** X4. The [size] parameter is read as a decimal number: for every
    [n] from 0 up, a [GET /data] whose [size] is the decimal text of [n] is
    answered with [n] times the multiplier bytes, as long as that product
    is at most the allocation limit [maxAlloc]. (The request carries no
    [Range] and no conditional header, as every [Request] here.) *)
Theorem data_size_decimal (r : Request) (n : Z) :
  Method r = "GET"%string →
  Get (Query r) "size" = FormatInt n →
  0 ≤ n →
  n * DataSpec.multiplier r ≤ maxAlloc →
  ∃ w, serveData r = Ok w ∧ status w = StatusOK
       ∧ Z.of_nat (length (written w)) = n * DataSpec.multiplier r.
Proof.
  intros Hget Hsize Hn Hfit. pose proof (multiplier_pos r) as Hm.
  pose proof maxAlloc_fits as Hmax.
  assert (Hs : DataSpec.size r = n).
  { unfold DataSpec.size. rewrite Hsize, ParseInt_FormatInt.
    - by destruct (Z.ltb_spec n 0); [lia|].
    - unfold inInt64, MinInt64, MaxInt64 in *. nia. }
  rewrite <- Hs in Hfit |- *.
  destruct (dataSize_within r Hfit) as [Heq Hrange]. rewrite <- Heq.
  by apply serveData_length.
Qed.

(** ** X5. A negative [size] gives an empty body whatever the [unit]: the
    size is set to 0 before it is multiplied, so no unit brings it back. *)
Theorem data_negative (r : Request) (n : Z) :
  Method r = "GET"%string →
  Get (Query r) "size" = FormatInt n →
  MinInt64 ≤ n < 0 →
  ∃ w, serveData r = Ok w ∧ status w = StatusOK ∧ written w = [].
Proof.
  intros Hget Hsize Hn.
  assert (Hs : DataSpec.size r = 0).
  { unfold DataSpec.size. rewrite Hsize, ParseInt_FormatInt.
    - by destruct (Z.ltb_spec n 0); [|lia].
    - unfold inInt64, MaxInt64. lia. }
  assert (Hd : dataSize r = 0) by (by rewrite dataSize_wrap, Hs).
  pose proof maxAlloc_fits.
  destruct (serveData_length r Hget) as (w & Hw & Hst & Hlen); [lia|].
  exists w. split; [done|]. split; [done|].
  rewrite Hd in Hlen. by destruct (written w).
Qed.

(** ** X6. A [size] whose decimal text is outside the range of [int64], on
    either side, is not clamped: it counts as unparseable and the handler
    goes on with size 1, so the body has as many bytes as the multiplier
    of the [unit]. *)
Theorem data_size_out_of_range (r : Request) (n : Z) :
  Method r = "GET"%string →
  Get (Query r) "size" = FormatInt n →
  n < MinInt64 ∨ MaxInt64 < n →
  ∃ w, serveData r = Ok w ∧ status w = StatusOK
       ∧ Z.of_nat (length (written w)) = DataSpec.multiplier r.
Proof.
  intros Hget Hsize Hn.
  assert (Hs : DataSpec.size r = 1).
  { unfold DataSpec.size. rewrite Hsize.
    destruct Hn; [by rewrite ParseInt_below|by rewrite ParseInt_above]. }
  pose proof (multiplier_max r) as Hmax.
  assert (Hfit : DataSpec.size r * DataSpec.multiplier r ≤ maxAlloc)
    by (rewrite Hs, maxAlloc_value; lia).
  destruct (dataSize_within r Hfit) as [Hd Hrange].
  rewrite Hs, Z.mul_1_l in Hd. rewrite <- Hd.
  by apply serveData_length.
Qed.

(** ** X7. The ways a [GET /data] can end. With [p] the product of size
    and multiplier wrapped to 64 bits: when [p] lies between 0 and the
    allocation limit [maxAlloc] the answer has status 200 and [p] bytes;
    when [p] is negative or above the limit the handler panics in the
    allocation inside [fillContent]; it never waits. (The request carries
    no [Range] and no conditional header, as every [Request] here.) *)
Theorem data_outcome (r : Request) :
  Method r = "GET"%string →
  let p := wrap64 (DataSpec.size r * DataSpec.multiplier r) in
  match serveData r with
  | Ok w =>
      0 ≤ p ≤ maxAlloc ∧ status w = StatusOK
      ∧ Z.of_nat (length (written w)) = p
  | Panic msg =>
      (p < 0 ∨ maxAlloc < p)
      ∧ msg = "runtime error: makeslice: len out of range"%string
  | Blocked => False
  end.
Proof.
  intros Hget p. subst p. rewrite <- dataSize_wrap.
  destruct (decide (0 ≤ dataSize r ≤ maxAlloc)) as [Hin|Hout].
  - destruct (serveData_length r Hget Hin) as (w & -> & Hst & Hlen). done.
  - assert (Hn : dataSize r < 0 ∨ maxAlloc < dataSize r) by lia.
    by rewrite (serveData_panic r _ (fillContent_refused _ Hn)).
Qed.

(** ** X8. In [w.Header()] the field [Content-Disposition: Attachment] is
    set exactly when the [attachment] parameter is one of the spellings of
    true that [ParseBool] knows; a missing or unreadable parameter means
    no attachment. Without it the handler sets no field at all; with it
    [http.ServeContent] adds [Last-Modified], [Content-Type],
    [Accept-Ranges] and the [Content-Length], which is the length of the
    body. (The request carries no [Range] and no conditional header, as
    every [Request] here.) *)
Theorem data_attachment_header (r : Request) (w : ResponseWriter) :
  Method r = "GET"%string →
  serveData r = Ok w →
  Header w !! "Content-Disposition"%string
  = (if dataAttachment r then Some ["Attachment"%string] else None)
  ∧ Header w = (if dataAttachment r
                then DataSpec.attachment (length (written w)) else ∅)
  ∧ (dataAttachment r = true
     ↔ Get (Query r) "attachment"
       ∈ ["1"; "t"; "T"; "true"; "TRUE"; "True"]%string).
Proof.
  intros Hget Hw.
  assert (Hh : Header w = (if dataAttachment r
                           then DataSpec.attachment (length (written w))
                           else ∅)).
  { destruct (fillContent (dataSize r)) as [b|msg|] eqn:Hfill.
    - rewrite (serveData_sent r b Hget Hfill) in Hw. by simplify_eq.
    - by rewrite (serveData_panic r msg Hfill) in Hw.
    - unfold serveData, respond, dataHandler in Hw. by rewrite Hfill in Hw. }
  split; [|split; [done|]].
  - rewrite Hh. destruct (dataAttachment r); [|done].
    unfold DataSpec.attachment. cbn [list_to_map foldr uncurry fst snd].
    by rewrite !lookup_insert_ne, lookup_insert_eq by done.
  - unfold dataAttachment, ParseBool.
    repeat case_bool_decide; split; done.
Qed.

(** ** X9. The [unit] is compared without regard to case: two requests
    with the same [size] whose units are ASCII and equal up to the case of
    their letters ask for the same length. *)
Theorem unit_ignores_case (r1 r2 : Request) :
  Get (Query r1) "size" = Get (Query r2) "size" →
  strings.allASCII (Get (Query r1) "unit") = true →
  strings.allASCII (Get (Query r2) "unit") = true →
  strings.lowerASCII (Get (Query r1) "unit")
  = strings.lowerASCII (Get (Query r2) "unit") →
  dataSize r1 = dataSize r2.
Proof.
  intros Hsize Ha1 Ha2 Hlow. unfold dataSize.
  by rewrite Hsize, (ToLower_ascii _ Ha1), (ToLower_ascii _ Ha2), Hlow.
Qed.

End DataMore.

Section DataMoreExamples.
Import Go strconv http App.

Lemma data_size_decimal_witness :
  let r := DataSpec.get [("size", "2"); ("unit", "KB")]%string in
  Method r = "GET"%string
  ∧ Get (Query r) "size" = FormatInt 2
  ∧ 0 ≤ 2 ∧ 2 * DataSpec.multiplier r ≤ maxAlloc
  ∧ ∃ w, serveData r = Ok w ∧ status w = StatusOK
         ∧ Z.of_nat (length (written w)) = 2048.
Proof.
  intros r.
  assert (Hfit : 2 * DataSpec.multiplier r ≤ maxAlloc) by (by vm_compute).
  split; [done|]. split; [done|]. split; [done|]. split; [done|].
  destruct (data_size_decimal r 2 eq_refl eq_refl ltac:(done) Hfit)
    as (w & Hw & Hst & Hlen).
  exists w. split; [done|]. split; [done|]. rewrite Hlen. by vm_compute.
Defined.

Lemma data_negative_witness :
  let r := DataSpec.get [("size", "-7"); ("unit", "tb")]%string in
  Method r = "GET"%string
  ∧ Get (Query r) "size" = FormatInt (-7)
  ∧ MinInt64 ≤ -7 < 0
  ∧ ∃ w, serveData r = Ok w ∧ status w = StatusOK ∧ written w = [].
Proof.
  intros r.
  assert (Hn : MinInt64 ≤ -7 < 0) by (by vm_compute).
  split; [done|]. split; [done|]. split; [done|].
  exact (data_negative r (-7) eq_refl eq_refl Hn).
Defined.

Lemma data_size_out_of_range_witness :
  let r := DataSpec.get [("size", "-9223372036854775809")]%string in
  Method r = "GET"%string
  ∧ Get (Query r) "size" = FormatInt (-9223372036854775809)
  ∧ (-9223372036854775809 < MinInt64 ∨ MaxInt64 < -9223372036854775809)
  ∧ ∃ w, serveData r = Ok w ∧ status w = StatusOK
         ∧ Z.of_nat (length (written w)) = 1.
Proof.
  intros r.
  assert (Hn : -9223372036854775809 < MinInt64
               ∨ MaxInt64 < -9223372036854775809) by (left; by vm_compute).
  assert (Hq : Get (Query r) "size" = FormatInt (-9223372036854775809))
    by (by vm_compute).
  split; [done|]. split; [done|]. split; [done|].
  exact (data_size_out_of_range r (-9223372036854775809) eq_refl Hq Hn).
Defined.

(** [GET /data?size=8388607&unit=tb]: the product is an [int64], one
    terabyte short of [2^63], and is refused by [make]. *)
Lemma data_outcome_witness :
  let r := DataSpec.get [("size", "8388607"); ("unit", "tb")]%string in
  Method r = "GET"%string
  ∧ wrap64 (DataSpec.size r * DataSpec.multiplier r) = 9223370937343148032
  ∧ serveData r = Panic "runtime error: makeslice: len out of range".
Proof.
  intros r.
  assert (Hp : wrap64 (DataSpec.size r * DataSpec.multiplier r)
               = 9223370937343148032) by (by vm_compute).
  split; [done|]. split; [done|].
  pose proof (data_outcome r eq_refl) as Hout. cbv zeta in Hout.
  rewrite Hp, maxAlloc_value in Hout.
  destruct (serveData r) as [w|msg|]; [lia| |done].
  by destruct Hout as [_ ->].
Defined.

Lemma data_attachment_header_witness :
  let r := DataSpec.get [("size", "3"); ("attachment", "T")]%string in
  ∃ w, Method r = "GET"%string
       ∧ serveData r = Ok w
       ∧ Header w !! "Content-Disposition"%string = Some ["Attachment"%string]
       ∧ Header w = DataSpec.attachment (length (written w))
       ∧ dataAttachment r = true.
Proof.
  intros r. destruct (serveData r) as [w|msg|] eqn:Hw.
  2, 3: by vm_compute in Hw.
  exists w. split; [done|]. split; [done|].
  destruct (data_attachment_header r w eq_refl Hw) as (Hcd & Hh & Ha).
  assert (Hatt : dataAttachment r = true) by (by vm_compute).
  rewrite Hatt in Hcd, Hh. done.
Defined.

Lemma unit_ignores_case_witness :
  let r1 := DataSpec.get [("size", "3"); ("unit", "kB")]%string in
  let r2 := DataSpec.get [("size", "3"); ("unit", "Kb")]%string in
  Get (Query r1) "size" = Get (Query r2) "size"
  ∧ Get (Query r1) "unit" ≠ Get (Query r2) "unit"
  ∧ dataSize r1 = dataSize r2.
Proof.
  intros r1 r2. split; [done|]. split; [done|].
  exact (unit_ignores_case r1 r2 eq_refl eq_refl eq_refl eq_refl).
Defined.

End DataMoreExamples.

(** * More about the health handler *)

Section HealthMore.
Import Go strconv http sync App Sessions.
Context `{Library}.

Lemma WriteHeader_returns (code : Z) (w : ResponseWriter) :
  WriteHeader code w ≠ Blocked.
Proof. unfold WriteHeader. by repeat case_match. Qed.

Lemma respond_returns (handled : result ResponseWriter) :
  handled ≠ Blocked → respond handled ≠ Blocked.
Proof.
  unfold respond, finish. destruct handled as [w| |]; [|done..]. intros _.
  cbn [mbind result_bind]. destruct (wroteHeader w) eqn:Hw; [done|].
  unfold WriteHeader. by rewrite Hw.
Qed.

(** What a request to [/health] leaves behind. *)
Lemma serveHealth_world (req : Request) (σ : World) :
  mutexHealthState σ = unlocked →
  (serveHealth req σ).1
  = match accepted req with
    | Some code => setStatusCode code (Printf (healthLine code) σ)
    | None => σ
    end.
Proof.
  intros Hmu. unfold accepted, serveHealth.
  case_bool_decide as Hm.
  - destruct (Decode (Body req) 0) as [err|code] eqn:Hd.
    + unfold healthHandler. rewrite bool_decide_eq_true_2 by done.
      by rewrite Hd.
    + by rewrite (healthHandler_write req σ code).
  - by rewrite healthHandler_read.
Qed.

Lemma serveHealth_unlocked (req : Request) (σ : World) :
  mutexHealthState σ = unlocked →
  mutexHealthState (serveHealth req σ).1 = unlocked.
Proof.
  intros Hmu. rewrite serveHealth_world by done. by destruct (accepted req).
Qed.

(** ** X10. Whatever the request to [/health] and whatever the stored
    code, the handler gives the lock back before it leaves, also when
    [WriteHeader] panics, because the unlock is deferred; and a handler
    that finds the lock free never waits. So one request cannot leave the
    next one stuck. *)
Theorem health_lock_released (req : Request) (σ : World) :
  mutexHealthState σ = unlocked →
  mutexHealthState (serveHealth req σ).1 = unlocked
  ∧ (serveHealth req σ).2 ≠ Blocked.
Proof.
  intros Hmu. split; [by apply serveHealth_unlocked|].
  unfold serveHealth. destruct (decide (Method req = MethodPost)) as [Hm|Hm].
  - destruct (Decode (Body req) 0) as [err|code] eqn:Hd.
    + unfold healthHandler. rewrite bool_decide_eq_true_2 by done.
      rewrite Hd. cbn [snd]. done.
    + by rewrite (healthHandler_write req σ code).
  - rewrite healthHandler_read by done. cbn [snd].
    apply respond_returns, WriteHeader_returns.
Qed.

Lemma serveHealthAll_world (reqs : list Request) :
  ∀ σ, mutexHealthState σ = unlocked →
    serveHealthAll reqs σ
    = foldl (fun σ code => setStatusCode code (Printf (healthLine code) σ))
            σ (omap accepted reqs)
    ∧ mutexHealthState (serveHealthAll reqs σ) = unlocked.
Proof.
  induction reqs as [|req reqs IH]; intros σ Hmu; [done|].
  unfold serveHealthAll. cbn [foldl omap list_omap].
  fold (serveHealthAll reqs (serveHealth req σ).1).
  destruct (IH (serveHealth req σ).1 (serveHealth_unlocked req σ Hmu))
    as [-> Hmu'].
  rewrite serveHealth_world in Hmu' |- * by done.
  by destruct (accepted req).
Qed.

(** ** X11. After any run of requests to [/health] the stored code is the
    one of the last [POST] whose body decoded, or the code the run started
    with when there was none: a [GET], and a [POST] that was refused, leave
    it alone, and each accepted [POST] replaces it. *)
Theorem health_last_post_wins (reqs : list Request) (σ : World) :
  mutexHealthState σ = unlocked →
  StatusCode (currentHealthState (serveHealthAll reqs σ))
  = default (StatusCode (currentHealthState σ)) (last (omap accepted reqs)).
Proof.
  intros Hmu. destruct (serveHealthAll_world reqs σ Hmu) as [-> _].
  generalize (omap accepted reqs). clear. intros codes. revert σ.
  induction codes as [|code codes IH]; intros σ; [done|].
  cbn [foldl]. rewrite IH. cbn [setStatusCode currentHealthState StatusCode].
  rewrite last_cons. by destruct (last codes).
Qed.

(** ** X12. The handler prints one line for each [POST] it accepts, with
    the code in decimal, in the order of the requests, and nothing for any
    other request; it writes nothing to the log. *)
Theorem health_prints_accepted (reqs : list Request) (σ : World) :
  mutexHealthState σ = unlocked →
  stdout (serveHealthAll reqs σ)
  = stdout σ ++ (healthLine <$> omap accepted reqs)
  ∧ logged (serveHealthAll reqs σ) = logged σ.
Proof.
  intros Hmu. destruct (serveHealthAll_world reqs σ Hmu) as [-> _].
  generalize (omap accepted reqs). clear. intros codes. revert σ.
  induction codes as [|code codes IH]; intros σ.
  - by rewrite app_nil_r.
  - cbn [foldl fmap list_fmap]. destruct (IH (setStatusCode code
      (Printf (healthLine code) σ))) as [-> ->].
    cbn [setStatusCode Printf stdout logged]. by rewrite <- app_assoc.
Qed.

(** ** X13. While the stored code is below 100 or above 999, every request
    to [/health] other than a [POST] makes the handler panic in
    [WriteHeader]; the client gets no response, the state stays as it is
    and the lock is released. Only another [POST] ends this. *)
Theorem health_get_invalid_code (req : Request) (σ : World) :
  Method req ≠ MethodPost →
  mutexHealthState σ = unlocked →
  StatusCode (currentHealthState σ) < 100
  ∨ 999 < StatusCode (currentHealthState σ) →
  serveHealth req σ
  = (σ, Panic ("invalid WriteHeader code "
               +:+ FormatInt (StatusCode (currentHealthState σ)))).
Proof.
  intros Hm Hmu Hcode. unfold serveHealth.
  rewrite healthHandler_read by done. by rewrite WriteHeader_invalid.
Qed.

End HealthMore.

Section HealthMoreExamples.
Import Go strconv http sync App Sessions Client.

Lemma health_lock_released_witness :
  let σ := (serveHealth (request "POST" "/health" "7") initial).1 in
  let req := request "GET" "/health" "" in
  mutexHealthState σ = unlocked
  ∧ (serveHealth req σ).2 = Panic "invalid WriteHeader code 7"
  ∧ mutexHealthState (serveHealth req σ).1 = unlocked
  ∧ (serveHealth req σ).2 ≠ Blocked.
Proof.
  intros σ req. split; [done|]. split; [by vm_compute|].
  exact (health_lock_released req σ eq_refl).
Defined.

Lemma health_last_post_wins_witness :
  let reqs := [request "POST" "/health" "503"; request "GET" "/health" "";
               request "POST" "/health" "oops"; request "POST" "/health" "404";
               request "PUT" "/health" "200"] in
  mutexHealthState initial = unlocked
  ∧ omap accepted reqs = [503; 404]
  ∧ StatusCode (currentHealthState (serveHealthAll reqs initial)) = 404.
Proof.
  intros reqs. split; [done|]. split; [by vm_compute|].
  exact (health_last_post_wins reqs initial eq_refl).
Defined.

Lemma health_prints_accepted_witness :
  let reqs := [request "POST" "/health" "503"; request "GET" "/health" "";
               request "POST" "/health" "oops"; request "POST" "/health" "404"] in
  mutexHealthState initial = unlocked
  ∧ stdout (serveHealthAll reqs initial)
    = [healthLine 503; healthLine 404]
  ∧ logged (serveHealthAll reqs initial) = [].
Proof.
  intros reqs. split; [done|].
  exact (health_prints_accepted reqs initial eq_refl).
Defined.

Lemma health_get_invalid_code_witness :
  let σ := (serveHealth (request "POST" "/health" "-1") initial).1 in
  let req := request "DELETE" "/health" "" in
  Method req ≠ MethodPost
  ∧ mutexHealthState σ = unlocked
  ∧ StatusCode (currentHealthState σ) = -1
  ∧ serveHealth req σ = (σ, Panic "invalid WriteHeader code -1").
Proof.
  intros σ req.
  assert (Hm : Method req ≠ MethodPost) by done.
  assert (Hc : StatusCode (currentHealthState σ) < 100
               ∨ 999 < StatusCode (currentHealthState σ))
    by (left; by vm_compute).
  split; [done|]. split; [done|]. split; [by vm_compute|].
  exact (health_get_invalid_code req σ Hm eq_refl Hc).
Defined.

End HealthMoreExamples.

(** * More about the router and the identity handler *)

Section RouterMore.
Import Go strings http App.

(** The routes as [main] registers them. *)
Lemma route_pattern (r : Request) (p : string) (h : handlerFunc) :
  (p, h) ∈ [("/data"%string, dataHandler_); ("/echo"%string, echoHandler_);
            ("/bench"%string, benchHandler_); ("/"%string, whoamiHandler_);
            ("/api"%string, apiHandler_); ("/health"%string, healthHandler_)] →
  Path r = p →
  route r = Registered h.
Proof.
  rewrite !elem_of_cons, elem_of_nil. intros Hin.
  destruct Hin as [?|[?|[?|[?|[?|[?|[]]]]]]]; simplify_eq; intros Hp;
    unfold route, dispatch; rewrite Hp;
    destruct (bool_decide (Method r = "CONNECT"%string)); by vm_compute.
Qed.

(** ** X14. The router looks at the path and not at the method: a request
    whose path is exactly one of the six registered patterns reaches the
    handler registered for it, whatever its method, query and body. *)
Theorem route_exact (r : Request) (p : string) (h : handlerFunc) :
  (p, h) ∈ [("/data"%string, dataHandler_); ("/echo"%string, echoHandler_);
            ("/bench"%string, benchHandler_); ("/"%string, whoamiHandler_);
            ("/api"%string, apiHandler_); ("/health"%string, healthHandler_)] →
  Path r = p →
  route r = Registered h.
Proof.
  rewrite !elem_of_cons, elem_of_nil. intros Hin.
  destruct Hin as [?|[?|[?|[?|[?|[?|[]]]]]]]; simplify_eq; intros Hp;
    unfold route, dispatch; rewrite Hp.
  all: destruct (bool_decide (Method r = "CONNECT"%string)); by vm_compute.
Qed.

(** ** X15. Because [main] registers the pattern [/], no request other
    than a [CONNECT] is answered with 404: it reaches a handler or is
    redirected to the canonical form of its path, and only the request
    target [*] is refused as a bad request. *)
Theorem route_never_not_found (r : Request) :
  Method r ≠ "CONNECT"%string →
  route r ≠ NotFoundHandler
  ∧ (route r = BadRequestHandler ↔ Path r = "*"%string)
  ∧ ((∃ h, route r = Registered h) ↔ cleanPath (Path r) = Path r).
Proof.
  intros Hm.
  destruct (decide (Path r = "*"%string)) as [Hstar|Hstar].
  { assert (Hr : route r = BadRequestHandler).
    { unfold route, dispatch. by rewrite bool_decide_eq_true_2. }
    rewrite Hr, Hstar. split; [done|]. split; [done|].
    split; [by intros [? ?]|done]. }
  destruct (decide (cleanPath (Path r) = Path r)) as [Hclean|Hclean].
  - assert (∃ h, route r = Registered h) as [h Hr].
    { destruct (decide (Path r ∈ ["/data"; "/echo"; "/bench"; "/api";
                                  "/health"]%string)) as [Hin|Hin].
      - rewrite !elem_of_cons, elem_of_nil in Hin.
        destruct Hin as [Hp|[Hp|[Hp|[Hp|[Hp|[]]]]]];
          [exists dataHandler_|exists echoHandler_|exists benchHandler_
          |exists apiHandler_|exists healthHandler_];
          (eapply route_pattern; [|exact Hp]); set_solver.
      - eexists. by apply route_other. }
    rewrite Hr. split; [done|]. split; [done|]. split; [done|by eexists].
  - rewrite (route_redirect r Hm Hstar Hclean).
    split; [done|]. split; [done|]. split; [by intros [? ?]|done].
Qed.

Context `{Library}.

(** ** X16. When writing the request back fails, the identity handler
    calls [http.Error] with status 500, but the header is already out:
    the response keeps status 200 and the text of the error is appended to
    what was written. *)
Theorem whoami_write_error (env : Env) (r : Request) (e : string) :
  (RequestWrite r).2 = Some e →
  ∃ w, serveWhoami env r = Ok w
       ∧ status w = StatusOK
       ∧ written w
         = IdentitySpec.report env r ++ (RequestWrite r).1
           ++ IdentitySpec.text [e].
Proof.
  intros He. destruct (serveWhoami_report env r) as (w & Hw & Hst & Hb).
  exists w. by rewrite He in Hb.
Qed.

End RouterMore.

Section RouterMoreExamples.
Import Go strings http App Client.

Lemma route_exact_witness :
  let r := request "DELETE" "/bench" "x" in
  Path r = "/bench"%string ∧ route r = Registered benchHandler_.
Proof.
  intros r. split; [done|].
  apply (route_exact r "/bench" benchHandler_); [set_solver|done].
Defined.

Lemma route_never_not_found_witness :
  let r := request "GET" "/no/such/../page/" "" in
  Method r ≠ "CONNECT"%string
  ∧ route r = RedirectHandler "/no/page/" StatusMovedPermanently
  ∧ route r ≠ NotFoundHandler
  ∧ (route r = BadRequestHandler ↔ Path r = "*"%string)
  ∧ ((∃ h, route r = Registered h) ↔ cleanPath (Path r) = Path r).
Proof.
  intros r.
  assert (Hm : Method r ≠ "CONNECT"%string) by done.
  split; [done|]. split; [by vm_compute|].
  exact (route_never_not_found r Hm).
Defined.

(** A library whose [req.Write] stops after the request line. *)
Definition brokenPipe : Library := {|
  ToLower := strings.lowerASCII;
  ToLower_ascii := fun _ _ => eq_refl;
  Decode := Reference.decode;
  Decode_literal := decode_FormatInt;
  RequestWrite := fun r =>
    ((Reference.requestWrite r).1, Some "write tcp: broken pipe"%string);
  Now := "Mon, 02 Jan 2006 15:04:05 GMT";
|}.

Lemma whoami_write_error_witness :
  let r := request "GET" "/" "" in
  (@RequestWrite brokenPipe r).2 = Some "write tcp: broken pipe"%string
  ∧ ∃ w, @serveWhoami brokenPipe someEnv r = Ok w
         ∧ status w = StatusOK
         ∧ written w
           = IdentitySpec.report someEnv r ++ (@RequestWrite brokenPipe r).1
             ++ IdentitySpec.text ["write tcp: broken pipe"%string].
Proof.
  intros r. split; [done|].
  exact (@whoami_write_error brokenPipe someEnv r _ eq_refl).
Defined.

End RouterMoreExamples.

(** * More about the echo loop *)

Section EchoMore.
Import Go strconv App EchoSpec Sessions.

Lemma Printf_each (f : byte → string) (s : list byte) :
  ∀ σ, foldl (fun σ c => Printf (f c) σ) σ s
       = {| currentHealthState := currentHealthState σ;
            mutexHealthState := mutexHealthState σ;
            stdout := stdout σ ++ (f <$> s); logged := logged σ |}.
Proof.
  induction s as [|c s IH]; intros σ.
  - cbn. rewrite app_nil_r. by destruct σ.
  - cbn [foldl fmap list_fmap]. rewrite IH. cbn [Printf stdout logged
      currentHealthState mutexHealthState]. by rewrite <- app_assoc.
Qed.

(** [printBinary] appends its calls of [Printf] and touches nothing
    else. *)
Lemma printBinary_world (msg : Message) (σ : World) :
  printBinary (payload msg) σ
  = {| currentHealthState := currentHealthState σ;
       mutexHealthState := mutexHealthState σ;
       stdout := stdout σ ++ frameLog msg; logged := logged σ |}.
Proof.
  unfold printBinary, frameLog. rewrite Printf_each.
  unfold Printf. cbn [stdout logged currentHealthState mutexHealthState].
  by rewrite <- !app_assoc.
Qed.

(** The loop prints every frame it reads: those it writes back and, when
    a write fails, the frame that was to be written. *)
Lemma echoLoop_world (incoming : list Incoming) (writable : nat → bool) :
  ∀ (sent : list Message) (σ : World),
    ∃ k : nat,
      let '(σ', out, _) := echoLoop incoming writable sent σ in
      (k ≤ length (received incoming))%nat
      ∧ out = sent ++ take k (received incoming)
      ∧ stdout σ'
        = stdout σ ++ concat (frameLog <$> take (S k) (received incoming))
      ∧ currentHealthState σ' = currentHealthState σ
      ∧ mutexHealthState σ' = mutexHealthState σ
      ∧ logged σ' = logged σ.
Proof.
  induction incoming as [|[msg|err] incoming IH]; intros sent σ.
  - exists 0%nat. cbn. by rewrite !app_nil_r.
  - cbn [echoLoop received]. destruct (writable (length sent)) eqn:Hw.
    + destruct (IH (sent ++ [msg]) (printBinary (payload msg) σ)) as (k & IHk).
      exists (S k).
      destruct (echoLoop incoming writable _ _) as [[σ' out] ended].
      destruct IHk as (Hk & -> & -> & -> & -> & ->).
      rewrite printBinary_world.
      cbn [stdout logged currentHealthState mutexHealthState take fmap
           list_fmap concat length].
      rewrite <- !app_assoc.
      split; [lia|]. done.
    + exists 0%nat. rewrite printBinary_world.
      cbn [stdout logged currentHealthState mutexHealthState take fmap
           list_fmap concat length].
      rewrite !app_nil_r.
      split; [lia|]. done.
  - exists 0%nat. cbn. by rewrite !app_nil_r.
Qed.

(** ** X17. The echo handler does not touch the health state or its
    lock, whatever arrives on the connection; and it writes to the log
    only when the upgrade fails, one line with the error. *)
Theorem echo_keeps_state (upgrade : string + Conn) (σ : World) :
  let σ' := (echoHandler upgrade σ).1.1 in
  currentHealthState σ' = currentHealthState σ
  ∧ mutexHealthState σ' = mutexHealthState σ
  ∧ logged σ' = logged σ ++ match upgrade with
                            | inl err => [err +:+ LF]
                            | inr _ => []
                            end.
Proof.
  destruct upgrade as [err|conn]; cbn [echoHandler fst]; [done|].
  destruct (echoLoop_world (incoming conn) (writable conn) (sent conn) σ)
    as (k & Hrun).
  destruct (echoLoop _ _ _ _) as [[σ' out] ended]. cbn [fst].
  destruct Hrun as (_ & _ & _ & -> & -> & ->). by rewrite app_nil_r.
Qed.

(** ** X18. Every frame the handler reads is printed, whether or not it
    can be written back. With [k] the number of frames echoed, the
    standard output gains the lines of the first [k + 1] frames received,
    in order: the [k] frames echoed and the frame whose write failed; when
    the loop ends at the read after the [k] frames there is no such frame
    and the lines are those of the frames echoed. *)
Theorem echo_prints_frames (conn : Conn) (σ : World) :
  ∃ k : nat,
    (k ≤ length (received (incoming conn)))%nat
    ∧ (echoHandler (inr conn) σ).1.2
      = sent conn ++ take k (received (incoming conn))
    ∧ stdout (echoHandler (inr conn) σ).1.1
      = stdout σ
        ++ concat (frameLog <$> take (S k) (received (incoming conn))).
Proof.
  cbn [echoHandler].
  destruct (echoLoop_world (incoming conn) (writable conn) (sent conn) σ)
    as (k & Hrun).
  exists k. destruct (echoLoop _ _ _ _) as [[σ' out] ended]. cbn [fst snd].
  by destruct Hrun as (? & -> & -> & _).
Qed.

(** ** X19. On a connection that accepts every write, everything that
    arrives before the first read error goes back, nothing is dropped and
    nothing is added. *)
Theorem echo_complete (conn : Conn) (σ : World) :
  (∀ k, writable conn k = true) →
  (echoHandler (inr conn) σ).1.2 = sent conn ++ received (incoming conn).
Proof.
  intros Hw. cbn [echoHandler].
  destruct (echoLoop_prefix (incoming conn) (writable conn) (sent conn) σ)
    as (k & σ' & ended & -> & Hk & _ & Hend). cbn [fst snd].
  destruct Hend as [(_ & Hf & _)|[(-> & _)|(-> & _)]].
  - by rewrite Hw in Hf.
  - by rewrite firstn_all.
  - by rewrite firstn_all.
Qed.

Lemma echo_complete_witness :
  let ping := {| messageType := 1; payload := ["p"; "i"; "n"; "g"]%byte |} in
  let blob := {| messageType := 2; payload := [x00; x01] |} in
  let conn := {| incoming := [Frame ping; Frame blob; ReadError "EOF";
                              Frame ping];
                 writable := fun _ => true; sent := [] |} in
  (∀ k, writable conn k = true)
  ∧ (echoHandler (inr conn) initial).1.2 = [ping; blob].
Proof.
  intros ping blob conn.
  assert (Hw : ∀ k, writable conn k = true) by done.
  split; [done|]. exact (echo_complete conn initial Hw).
Defined.

End EchoMore.

(** * More about the goroutines of the health handler *)

Section InterleavingsMore.
Import Go sync Concurrent Progress.

Implicit Types (f : goroutine → nat) (gs : list goroutine) (g : goroutine).

Lemma total_positive f gs :
  (0 < total f gs)%nat → ∃ i g, gs !! i = Some g ∧ (0 < f g)%nat.
Proof.
  induction gs as [|a gs IH]; [by cbn; lia|].
  rewrite total_cons. intros Hpos.
  destruct (decide (0 < f a)%nat) as [Ha|Ha].
  - by exists 0%nat, a.
  - destruct IH as (i & g & Hi & Hg); [lia|]. by exists (S i), g.
Qed.

Lemma total_zero f gs :
  (∀ i g, gs !! i = Some g → f g = 0%nat) → total f gs = 0%nat.
Proof.
  induction gs as [|a gs IH]; intros Hall; [done|].
  rewrite total_cons, (Hall 0%nat a), IH; [done| |done].
  intros i g Hi. by apply (Hall (S i)).
Qed.

(** A goroutine that holds a lock can take its next step. *)
Lemma holder_can_step (s : state) (i : nat) (g : goroutine) :
  invariant s → goroutines s !! i = Some g →
  (0 < writing g + reading g)%nat →
  canStep s i.
Proof.
  intros [Hex Hrd Hwr Hst _ _] Hi Hg. exists g. split; [done|].
  pose proof (total_lookup writing _ _ _ Hi) as Hwle.
  pose proof (total_lookup reading _ _ _ Hi) as Hrle.
  destruct g; cbn [writing reading] in *; try lia; cbn [advance]; try by eexists.
  - by destruct (StatusCode s).
  - unfold Unlock. destruct (writer (mutexHealthState s)); [by eexists|lia].
  - unfold RUnlock. destruct (readers (mutexHealthState s)); [lia|by eexists].
Qed.

(** ** X20. The goroutines in the health handler never all wait: in
    every state that can be reached, as long as some goroutine has not
    returned, some goroutine can take its next step, because whoever holds
    the lock can always go on to release it. *)
Theorem health_no_deadlock (events : list event) (i : nat) (g : goroutine) :
  let s := run events initial in
  goroutines s !! i = Some g →
  returned g = false →
  ∃ j, canStep s j.
Proof.
  intros s Hi Hg.
  pose proof (invariant_run events initial invariant_initial) as Hinv.
  fold s in Hinv.
  destruct (decide (0 < writing g + reading g)%nat) as [Hhold|Hfree].
  { exists i. by eapply holder_can_step. }
  destruct (decide (0 < total writing (goroutines s)
                        + total reading (goroutines s))%nat) as [Hbusy|Hidle].
  { assert (∃ j gj, goroutines s !! j = Some gj
                    ∧ (0 < writing gj + reading gj)%nat) as (j & gj & Hj & Hgj).
    { destruct (decide (0 < total writing (goroutines s))%nat) as [Hw|Hw].
      - destruct (total_positive _ _ Hw) as (j & gj & Hj & Hgj).
        exists j, gj. split; [done|lia].
      - destruct (total_positive reading (goroutines s)) as (j & gj & Hj & Hgj);
          [lia|].
        exists j, gj. split; [done|lia]. }
    exists j. by eapply holder_can_step. }
  exists i, g. split; [done|].
  destruct Hinv as [Hex Hrd Hwr Hst _ _].
  assert (Hw0 : writer (mutexHealthState s) = false)
    by (destruct (writer (mutexHealthState s)); [lia|done]).
  assert (Hr0 : readers (mutexHealthState s) = 0%nat) by lia.
  destruct g; cbn [writing reading returned] in *; try lia; try done;
    cbn [advance].
  - unfold Lock. rewrite Hw0, Hr0. by eexists.
  - unfold RLock. rewrite Hw0. by eexists.
Qed.

Lemma health_no_deadlock_witness :
  let events := [Post 503; Get; Run 0; Run 1; Run 1] in
  let s := run events initial in
  goroutines s !! 1%nat = Some GetStarted
  ∧ returned GetStarted = false
  ∧ ¬ canStep s 1
  ∧ ∃ j, canStep s j.
Proof.
  intros events s.
  assert (Hi : goroutines s !! 1%nat = Some GetStarted) by (by vm_compute).
  split; [done|]. split; [done|]. split.
  - intros (g & Hg & Hstep). rewrite Hi in Hg. simplify_eq.
    vm_compute in Hstep. by destruct Hstep.
  - exact (health_no_deadlock events 1 GetStarted Hi eq_refl).
Defined.

(** ** X21. Once every goroutine has returned, the lock is free again
    and [StatusCode] holds a whole value: the 200 it started with or the
    code of one of the [POST]s. *)
Theorem health_quiescent (events : list event) :
  let s := run events initial in
  (∀ i g, goroutines s !! i = Some g → returned g = true) →
  mutexHealthState s = unlocked
  ∧ ∃ v, StatusCode s = Whole v
         ∧ (v = http.StatusOK
            ∨ ∃ j, goroutines s !! j = Some (PostReturned v)).
Proof.
  intros s Hall.
  pose proof (invariant_run events initial invariant_initial) as Hinv.
  fold s in Hinv. destruct Hinv as [Hex Hrd Hwr Hst Hcell _].
  assert (Hzero : ∀ f, (∀ g, returned g = true → f g = 0%nat) →
                       total f (goroutines s) = 0%nat).
  { intros f Hf. apply total_zero. intros i g Hi. apply Hf. by eapply Hall. }
  rewrite (Hzero writing) in Hwr by (by intros []).
  rewrite (Hzero reading) in Hrd by (by intros []).
  rewrite (Hzero storing) in Hst by (by intros []).
  split.
  - destruct (mutexHealthState s) as [w n]. cbn in *. subst n.
    by destruct w.
  - destruct (StatusCode s) as [v|old new]; [|done].
    exists v. split; [done|]. destruct (Hcell v eq_refl) as [?|Hw]; [by left|].
    right. destruct Hw as (j & g & Hj & Hg). exists j.
    pose proof (Hall j g Hj) as Hret.
    destruct g; cbn in Hg, Hret; by simplify_eq.
Qed.

Lemma health_quiescent_witness :
  let events := [Post 500; Post 503; Get; Run 1; Run 1; Run 1; Run 1;
                 Run 0; Run 0; Run 0; Run 0; Run 2; Run 2; Run 2] in
  let s := run events initial in
  (∀ i g, goroutines s !! i = Some g → returned g = true)
  ∧ goroutines s = [PostReturned 500; PostReturned 503; GetReturned (Some 500)]
  ∧ mutexHealthState s = unlocked
  ∧ StatusCode s = Whole 500.
Proof.
  intros events s.
  assert (Hgs : goroutines s
                = [PostReturned 500; PostReturned 503; GetReturned (Some 500)])
    by (by vm_compute).
  assert (Hall : ∀ i g, goroutines s !! i = Some g → returned g = true).
  { intros i g. rewrite Hgs. intros Hi.
    apply list_elem_of_lookup_2 in Hi.
    rewrite !elem_of_cons, elem_of_nil in Hi.
    by destruct Hi as [->|[->|[->|[]]]]. }
  split; [done|]. split; [done|].
  destruct (health_quiescent events Hall) as [Hmu _].
  split; [done|]. by vm_compute.
Defined.

End InterleavingsMore.

(** * The data handler without a size *)

Section DataMissing.
Import Go strconv http App.
Context `{Library}.

(** ** X22. A request without a [size] parameter, or with an empty one,
    is served as if the size were 1: the body has as many bytes as the
    multiplier of the [unit], a single sentinel when there is no unit
    either. *)
Theorem data_without_size (r : Request) :
  Method r = "GET"%string →
  Query r !! "size"%string = None ∨ Get (Query r) "size" = ""%string →
  ∃ w, serveData r = Ok w ∧ status w = StatusOK
       ∧ Z.of_nat (length (written w)) = DataSpec.multiplier r
       ∧ (DataSpec.multiplier r = 1 → written w = ["|"%byte]).
Proof.
  intros Hget Hmiss.
  assert (Hq : Get (Query r) "size" = ""%string).
  { destruct Hmiss as [Hnone|?]; [|done]. unfold Get. by rewrite Hnone. }
  assert (Hs : DataSpec.size r = 1) by (unfold DataSpec.size; by rewrite Hq).
  pose proof (multiplier_max r) as Hmax.
  assert (Hfit : DataSpec.size r * DataSpec.multiplier r ≤ maxAlloc)
    by (rewrite Hs, maxAlloc_value; lia).
  destruct (dataSize_within r Hfit) as [Hd Hrange].
  rewrite Hs, Z.mul_1_l in Hd.
  pose proof (multiplier_pos r) as Hm.
  destruct (fillContent_ends (dataSize r)) as (b & Hfill & Hlen & Hends);
    [lia|].
  destruct (serveData_ok r b Hget Hfill) as (w & Hw & Hst & Hb & _).
  exists w. rewrite Hb, Hlen, Hd. split; [done|]. split; [done|].
  split; [done|]. intros H1. rewrite Hd, H1 in Hlen, Hends.
  destruct Hends as [Hhead _]; [lia|].
  destruct b as [|c [|c' b]]; cbn in Hlen, Hhead; [lia| |lia].
  by simplify_eq.
Qed.

End DataMissing.

Section DataMissingExamples.
Import Go strconv http App.

Lemma data_without_size_witness :
  let r := DataSpec.get [("unit", "kb")]%string in
  Method r = "GET"%string
  ∧ Query r !! "size"%string = None
  ∧ ∃ w, serveData r = Ok w ∧ status w = StatusOK
         ∧ Z.of_nat (length (written w)) = 1024.
Proof.
  intros r.
  assert (Hq : Query r !! "size"%string = None) by (by vm_compute).
  split; [done|]. split; [done|].
  destruct (data_without_size r eq_refl (or_introl Hq))
    as (w & Hw & Hst & Hlen & _).
  exists w. split; [done|]. split; [done|]. rewrite Hlen. by vm_compute.
Defined.

End DataMissingExamples.
